(** * Review-statistics relay service (src/app.js)

    A shallow embedding of the Express application of [src/app.js]: the
    bearer-token middleware, the three relay routes and the aggregation
    route that fans out one review request per location, together with
    the properties the specification states about them.

    Conventions of the embedding.
    - A JavaScript value that may be [undefined] is an [option].
    - Upstream payloads are typed after the upstream contract: a location
      has a resource [name] (a string), an optional display name and an
      optional address; a review summary has two optional counters.
      Error bodies are kept as untyped JSON, because the code navigates
      them with optional chaining and tests them with [||].
    - JavaScript numbers are modelled by exact numbers: review counts by
      [Z], ratings by [Q].  The rounding of IEEE additions and divisions
      is therefore not modelled: where the code's double-precision sum
      or quotient is inexact, the last digit the code shows may differ
      from the one computed here.  [Number.prototype.toFixed] itself is
      defined on exact values, as in the language standard.
    - The upstream service is a state machine the model is parametric in;
      every [axios.get] is recorded in a log of calls. *)

From Stdlib Require Import Ascii String QArith Qround Qabs Lqa.
From stdpp Require Import base option list strings.

Local Set Warnings "-register-all".

Local Open Scope string_scope.
Local Open Scope Z_scope.

(** ** JavaScript strings *)

Module JsString.

(** [s.split(sep)] for a one-character separator: never empty. *)
Fixpoint split (sep : ascii) (s : string) : list string :=
  match s with
  | EmptyString => [ EmptyString ]
  | String c rest =>
      if Ascii.eqb c sep then EmptyString :: split sep rest
      else match split sep rest with
           | [] => [ String c EmptyString ]
           | w :: ws => String c w :: ws
           end
  end.

(** [parts.join(sep)] on an array of strings. *)
Fixpoint join (sep : string) (parts : list string) : string :=
  match parts with
  | [] => ""
  | [ p ] => p
  | p :: ps => p +:+ sep +:+ join sep ps
  end.

(** [s.startsWith(p)]. *)
Fixpoint startsWith (p s : string) : bool :=
  match p, s with
  | EmptyString, _ => true
  | String a p', String b s' => Ascii.eqb a b && startsWith p' s'
  | String _ _, EmptyString => false
  end.

(** [arr.pop()]: the last element, [undefined] on an empty array. *)
Definition pop (parts : list string) : option string := last parts.

(** A string inside a template literal: [undefined] prints as such. *)
Definition template (v : option string) : string :=
  match v with Some s => s | None => "undefined" end.

(** Truthiness of a string: the empty string is falsy. *)
Definition truthy (s : string) : bool :=
  match s with EmptyString => false | String _ _ => true end.

(** [v || d] when [v] is a string or [undefined]. *)
Definition or_else (v : option string) (d : string) : string :=
  match v with
  | Some s => if truthy s then s else d
  | None => d
  end.

End JsString.

(** ** JSON values *)

Inductive json : Type :=
| JNull
| JBool (b : bool)
| JNum (q : Q)
| JStr (s : string)
| JArr (items : list json)
| JObj (fields : list (string * json)).

Module Json.

(** JavaScript truthiness of a parsed JSON value. *)
Definition truthy (v : json) : bool :=
  match v with
  | JNull => false
  | JBool b => b
  | JNum q => negb (Qeq_bool q 0%Q)
  | JStr s => JsString.truthy s
  | JArr _ | JObj _ => true
  end.

Fixpoint assoc (key : string) (fields : list (string * json)) : option json :=
  match fields with
  | [] => None
  | (k, v) :: rest => if String.eqb k key then Some v else assoc key rest
  end.

(** [v?.key] for the keys the service reads ([error], [message]), which
    no primitive and no array carries: only objects answer. *)
Definition get (v : option json) (key : string) : option json :=
  match v with
  | Some (JObj fields) => assoc key fields
  | _ => None
  end.

(** [v || d] on a possibly undefined JSON value. *)
Definition or_else (v : option json) (d : json) : json :=
  match v with
  | Some x => if truthy x then x else d
  | None => d
  end.

End Json.

(** [n || 0] and the like on numbers: [undefined] and [0] are falsy. *)
Definition Z_or (v : option Z) (d : Z) : Z :=
  match v with
  | Some n => if n =? 0 then d else n
  | None => d
  end.

Definition Q_or (v : option Q) (d : Q) : Q :=
  match v with
  | Some q => if Qeq_bool q 0%Q then d else q
  | None => d
  end.

(** [arr || []]: an array is always truthy. *)
Definition list_or {A} (v : option (list A)) : list A :=
  match v with Some l => l | None => [] end.

(** ** JavaScript numbers: [Number.prototype.toFixed] *)

Module JsNumber.

Definition digit (d : Z) : ascii := ascii_of_nat (48 + Z.to_nat d).

Fixpoint digits (fuel : nat) (n : Z) (acc : string) : string :=
  match fuel with
  | O => acc
  | S fuel' =>
      let acc' := String (digit (n mod 10)) acc in
      if n / 10 =? 0 then acc' else digits fuel' (n / 10) acc'
  end.

(** The decimal representation of a non-negative integer, ["0"] for 0,
    no leading zero otherwise. *)
Definition decimal (n : Z) : string :=
  digits (S (Z.to_nat (Z.log2 n))) n "".

Fixpoint zeros (k : nat) : string :=
  match k with O => "" | S k' => String "0" (zeros k') end.

(** The integer [n] for which [n / 10^f - x] is closest to zero, the
    larger one when two are equally close. *)
Definition nearest (f : nat) (x : Q) : Z :=
  Qfloor (x * inject_Z (10 ^ Z.of_nat f) + (1 # 2)).

Section ToFixed.

(** [Number::toString], which [toFixed] defers to from [10^21] on, is
    outside this development. *)
Variable numberToString : Q -> string.

(** [x.toFixed(f)] for a finite [x] and [0 <= f <= 100], after the
    steps of the language standard. *)
Definition toFixed (f : nat) (x : Q) : string :=
  let s := if Qle_bool 0%Q x then "" else "-" in
  let x := if Qle_bool 0%Q x then x else Qopp x in
  let m :=
    if Qle_bool (inject_Z (10 ^ 21)) x then numberToString x
    else
      let n := nearest f x in
      let m := decimal n in
      match f with
      | O => m
      | S _ =>
          let k := String.length m in
          let m := if (k <=? f)%nat then zeros (f + 1 - k) +:+ m else m in
          let k := String.length m in
          substring 0 (k - f) m +:+ "." +:+ substring (k - f) f m
      end
  in s +:+ m.

End ToFixed.

End JsNumber.

(** ** The upstream listing API, as the service consumes it *)

Module Gmb.

Record Address : Type := { addressLines : option (list string) }.

Record Location : Type := {
  name : string;
  locationName : option string;
  address : option Address
}.

(** [response.data] of a successful call, with the fields the service
    reads; each may be absent. *)
Record Data : Type := {
  accounts : option (list json);
  locations : option (list Location);
  totalReviewCount : option Z;
  averageRating : option Q
}.

End Gmb.

(** What a [catch] clause receives: an axios error carries [response]
    when the upstream answered, and only a [message] otherwise. *)
Record Response : Type := { status : Z; data : json }.
Record JsError : Type := { message : string; response : option Response }.

(** The outcome of a promise that has settled. *)
Inductive settled (A : Type) : Type :=
| Fulfilled (value : A)
| Rejected (error : JsError).
Arguments Fulfilled {A} value.
Arguments Rejected {A} error.

(** One [axios.get(url, { headers, params })]. *)
Record Call : Type := {
  url : string;
  Authorization : string;
  ContentType : string;
  pageSize : option Z
}.

Definition GMB_API_BASE_URL : string := "https://mybusiness.googleapis.com/v4".

(** ** What the service answers *)

Record LocationStats : Type := {
  locationId : option string;
  locationName : string;
  address : string;
  totalReviewCount : Z;
  averageRating : Q;
  error : option json
}.

Record GlobalStats : Type := {
  totalLocations : nat;
  totalReviews : Z;
  averageRatingAcrossAllLocations : json
}.

Inductive Body : Type :=
| TokenError (error message : string)
| Accounts (success : bool) (accounts : list json)
| Locations (success : bool) (locations : list Gmb.Location)
| ReviewsStats (success : bool) (locationId : string)
    (totalReviewCount : Z) (averageRating : Q)
| AllReviewsStats (success : bool) (accountId : string)
    (globalStats : GlobalStats) (locationStats : list LocationStats)
| Failure (success : bool) (error : json).

Record HttpResponse : Type := { code : Z; body : Body }.

(** [res.json(b)] answers 200; [res.status(c).json(b)] answers [c]. *)
Definition res_json (b : Body) : HttpResponse := {| code := 200; body := b |}.
Definition res_status_json (c : Z) (b : Body) : HttpResponse :=
  {| code := c; body := b |}.

(** The routes behind [validateToken], with their path parameters. *)
Inductive Route : Type :=
| ApiAccounts
| ApiLocations (accountId : string)
| ApiReviewsStats (accountId locationId : string)
| ApiAllReviewsStats (accountId : string).

Record Request : Type := {
  route : Route;
  authorization : option string;
  accessToken : option string
}.

(** ** The world outside the service *)

(** The upstream's own state and the log of the calls sent to it. *)
Record World (U : Type) : Type := {
  remote : U;
  calls : list Call
}.
Arguments remote {U} w.
Arguments calls {U} w.

(** An [async] function with a single [await] on [axios.get]: the call it
    issues when started, and how it settles once the call has. *)
Record Task (A : Type) : Type := {
  request : Call;
  resume : settled Gmb.Data -> settled A
}.
Arguments request {A} t.
Arguments resume {A} t outcome.

(** [try { ... } catch (error) { ... }] around code that only awaits. *)
Definition try_catch_pure {A} (body : settled A) (handler : JsError -> settled A)
  : settled A :=
  match body with
  | Fulfilled a => Fulfilled a
  | Rejected e => handler e
  end.

Definition settled_bind {A B} (m : settled A) (k : A -> settled B) : settled B :=
  match m with
  | Fulfilled a => k a
  | Rejected e => Rejected e
  end.

Section Service.

Context {U : Type}.

(** How the upstream answers a call, and what it becomes. *)
Variable upstream : Call -> U -> settled Gmb.Data * U.

Variable numberToString : Q -> string.

(** An asynchronous computation: it settles in some world, or never
    does ([None]). *)
Definition Async (A : Type) : Type :=
  World U -> option (settled A * World U).

Definition ret {A} (a : A) : Async A := fun w => Some (Fulfilled a, w).

Definition bind {A B} (m : Async A) (k : A -> Async B) : Async B :=
  fun w =>
    match m w with
    | Some (Fulfilled a, w') => k a w'
    | Some (Rejected e, w') => Some (Rejected e, w')
    | None => None
    end.

Notation "'const' x ':=' 'await' m ';' k" := (bind m (fun x => k))
  (at level 10, x name, m at level 100, k at level 200,
   format "'[v' 'const'  x  ':='  'await'  m ';' '/' k ']'").

(** A route handler answers in some world, or never. *)
Definition Handler : Type := World U -> option (HttpResponse * World U).

(** [try { body } catch (error) { handler }] where the handler only
    builds the answer. *)
Definition try_catch {A} (body : Async A) (handler : JsError -> A)
  : World U -> option (A * World U) :=
  fun w =>
    match body w with
    | Some (Fulfilled a, w') => Some (a, w')
    | Some (Rejected e, w') => Some (handler e, w')
    | None => None
    end.

(** [await axios.get(...)]: the call is logged and the upstream answers. *)
Definition axios_get (c : Call) : Async Gmb.Data :=
  fun w =>
    let '(outcome, u) := upstream c (remote w) in
    Some (outcome, {| remote := u; calls := (calls w ++ [c])%list |}).

(** *** [Promise.all] over started tasks

    [order] lists the indices of the tasks in the order in which their
    calls are answered.  An answered task stores its value at its own
    index; the first rejection rejects the whole.  Indices that name no
    pending task are skipped. *)
Fixpoint deliver {A} (tasks : list (Task A)) (order : list nat)
    (values : list (option A)) (u : U) : settled (list (option A)) * U :=
  match order with
  | [] => (Fulfilled values, u)
  | i :: order' =>
      match tasks !! i, values !! i with
      | Some t, Some None =>
          let '(outcome, u') := upstream (request t) u in
          match resume t outcome with
          | Fulfilled a => deliver tasks order' (<[i := Some a]> values) u'
          | Rejected e => (Rejected e, u')
          end
      | _, _ => deliver tasks order' values u
      end
  end.

Definition promise_all {A} (order : list nat) (tasks : list (Task A))
  : Async (list A) :=
  fun w =>
    let sent := (calls w ++ map request tasks)%list in
    match deliver tasks order (replicate (length tasks) None) (remote w) with
    | (Fulfilled values, u) =>
        match mapM id values with
        | Some all => Some (Fulfilled all, {| remote := u; calls := sent |})
        | None => None
        end
    | (Rejected e, u) => Some (Rejected e, {| remote := u; calls := sent |})
    end.

(** ** The middleware *)

Definition validateToken (req : Request) (next : Request -> Handler) : Handler :=
  fun w =>
    let authHeader := authorization req in
    if negb (match authHeader with Some h => JsString.truthy h | None => false end)
       || negb (match authHeader with
                | Some h => JsString.startsWith "Bearer " h
                | None => false
                end)
    then
      Some (res_status_json 401
              (TokenError "Token d'authentification manquant ou invalide"
                 "Veuillez fournir un token Bearer dans le header Authorization"),
            w)
    else
      next {| route := route req;
              authorization := authorization req;
              accessToken :=
                h ← authHeader; JsString.split " " h !! 1%nat |} w.

(** ** The routes *)

Definition headers (req : Request) (target : string) (page : option Z) : Call :=
  {| url := target;
     Authorization := "Bearer " +:+ JsString.template (accessToken req);
     ContentType := "application/json";
     pageSize := page |}.

(** The [catch] clause shared by the four routes. *)
Definition upstream_failure (error : JsError) : HttpResponse :=
  res_status_json
    (Z_or (status <$> response error) 500)
    (Failure false
       (Json.or_else (data <$> response error) (JStr (message error)))).

Definition get_accounts (req : Request) : Handler :=
  try_catch
    (const response := await
       axios_get (headers req (GMB_API_BASE_URL +:+ "/accounts") None);
     ret (res_json (Accounts true (list_or (Gmb.accounts response)))))
    upstream_failure.

Definition get_locations (accountId : string) (req : Request) : Handler :=
  try_catch
    (const response := await
       axios_get
         (headers req
            (GMB_API_BASE_URL +:+ "/accounts/" +:+ accountId +:+ "/locations")
            None);
     ret (res_json (Locations true (list_or (Gmb.locations response)))))
    upstream_failure.

Definition get_reviews_stats (accountId locationId : string) (req : Request)
  : Handler :=
  try_catch
    (let locationPath :=
       "accounts/" +:+ accountId +:+ "/locations/" +:+ locationId in
     const response := await
       axios_get
         (headers req (GMB_API_BASE_URL +:+ "/" +:+ locationPath +:+ "/reviews")
            (Some 1));
     ret (res_json
            (ReviewsStats true locationId
               (Z_or (Gmb.totalReviewCount response) 0)
               (Q_or (Gmb.averageRating response) 0%Q))))
    upstream_failure.

(** [location.address?.addressLines?.join(', ')]. *)
Definition joined_address (location : Gmb.Location) : option string :=
  a ← Gmb.address location;
  lines ← Gmb.addressLines a;
  Some (JsString.join ", " lines).

(** The [async (location) => { try { ... } catch (error) { ... } }]
    mapped over the locations. *)
Definition location_stats (req : Request) (location : Gmb.Location)
  : Task LocationStats :=
  {| request :=
       headers req
         (GMB_API_BASE_URL +:+ "/" +:+ Gmb.name location +:+ "/reviews")
         (Some 1);
     resume := fun outcome =>
       try_catch_pure
         (settled_bind outcome (fun reviewsResponse =>
            Fulfilled
              {| locationId :=
                   JsString.pop (JsString.split "/" (Gmb.name location));
                 locationName :=
                   JsString.or_else (Gmb.locationName location) "N/A";
                 address := JsString.or_else (joined_address location) "N/A";
                 totalReviewCount :=
                   Z_or (Gmb.totalReviewCount reviewsResponse) 0;
                 averageRating :=
                   Q_or (Gmb.averageRating reviewsResponse) 0%Q;
                 error := None |}))
         (fun error =>
            Fulfilled
              {| locationId :=
                   JsString.pop (JsString.split "/" (Gmb.name location));
                 locationName :=
                   JsString.or_else (Gmb.locationName location) "N/A";
                 address := JsString.or_else (joined_address location) "N/A";
                 totalReviewCount := 0;
                 averageRating := 0%Q;
                 error :=
                   Some (Json.or_else
                           (Json.get
                              (Json.get (data <$> response error) "error")
                              "message")
                           (JStr "Impossible de récupérer les avis")) |}) |}.

(** Step 3 of the aggregation route. *)
Definition global_stats (locations : list Gmb.Location)
    (allStats : list LocationStats) : GlobalStats :=
  {| totalLocations := length locations;
     totalReviews :=
       fold_left (fun sum stat => sum + totalReviewCount stat) allStats 0;
     averageRatingAcrossAllLocations :=
       if (0 <? length allStats)%nat
       then JStr (JsNumber.toFixed numberToString 2
                    (fold_left (fun sum stat => sum + averageRating stat)%Q
                       allStats 0%Q
                     / inject_Z (Z.of_nat (length allStats)))%Q)
       else JNum 0%Q |}.

Definition get_all_reviews_stats (order : list nat) (accountId : string)
    (req : Request) : Handler :=
  try_catch
    (const locationsResponse := await
       axios_get
         (headers req
            (GMB_API_BASE_URL +:+ "/accounts/" +:+ accountId +:+ "/locations")
            None);
     let locations := list_or (Gmb.locations locationsResponse) in
     let statsPromises := map (location_stats req) locations in
     const allStats := await promise_all order statsPromises;
     let globalStats := global_stats locations allStats in
     ret (res_json (AllReviewsStats true accountId globalStats allStats)))
    upstream_failure.

(** The handler registered for each route. *)
Definition handler_of (order : list nat) (r : Route) : Request -> Handler :=
  match r with
  | ApiAccounts => get_accounts
  | ApiLocations accountId => get_locations accountId
  | ApiReviewsStats accountId locationId =>
      get_reviews_stats accountId locationId
  | ApiAllReviewsStats accountId => get_all_reviews_stats order accountId
  end.

(** The first call a route sends to the upstream. *)
Definition first_call (r : Route) (req : Request) : Call :=
  match r with
  | ApiAccounts => headers req (GMB_API_BASE_URL +:+ "/accounts") None
  | ApiLocations accountId | ApiAllReviewsStats accountId =>
      headers req
        (GMB_API_BASE_URL +:+ "/accounts/" +:+ accountId +:+ "/locations")
        None
  | ApiReviewsStats accountId locationId =>
      headers req
        (GMB_API_BASE_URL +:+ "/" +:+
           ("accounts/" +:+ accountId +:+ "/locations/" +:+ locationId)
           +:+ "/reviews")
        (Some 1)
  end.

(** The application: [app.get(path, validateToken, handler)] for every
    route.  [order] is the order in which the upstream answers the
    fan-out of the aggregation route. *)
Definition app (order : list nat) (req : Request) : Handler :=
  validateToken req (handler_of order (route req)).

End Service.

(** ** The specification's vocabulary *)

Module Spec.

(** The message the upstream gave for a failed call, when it gave a
    usable one: the [message] member of the [error] member of the body
    it answered with. *)
Definition upstream_error_message (e : JsError) : option json :=
  match response e with
  | Some {| data := JObj body |} =>
      match Json.assoc "error" body with
      | Some (JObj err) =>
          match Json.assoc "message" err with
          | Some m => if Json.truthy m then Some m else None
          | None => None
          end
      | _ => None
      end
  | _ => None
  end.

Definition fallback_message : json := JStr "Impossible de récupérer les avis".

(** The sum of a list of counts, and of a list of ratings. *)
Definition sum_Z (l : list Z) : Z := foldr Z.add 0 l.


(** Every request of a fan-out of [n] is answered. *)
Definition answers_all (order : list nat) (n : nat) : Prop :=
  ∀ i, (i < n)%nat → i ∈ order.

(** Every value stored by the join is what the task of that index
    settled with. *)
Definition filled_by {A} (tasks : list (Task A)) (values : list (option A))
  : Prop :=
  ∀ i v, values !! i = Some (Some v) →
    ∃ t outcome, tasks !! i = Some t ∧ resume t outcome = Fulfilled v.

(** [stats] is what the per-location fetcher returns for [location],
    whatever the upstream answered. *)
Definition entry_of (req : Request) (location : Gmb.Location)
    (stats : LocationStats) : Prop :=
  ∃ outcome, resume (location_stats req location) outcome = Fulfilled stats.

(** A location that lacks address lines: no address, no lines in it, or
    none at all. *)
Definition lacks_address_lines (location : Gmb.Location) : Prop :=
  match Gmb.address location with
  | None => True
  | Some a =>
      match Gmb.addressLines a with
      | None | Some [] => True
      | Some (_ :: _) => False
      end
  end.

(** A token without a space in it. *)
Fixpoint no_space (s : string) : bool :=
  match s with
  | EmptyString => true
  | String c rest => negb (Ascii.eqb c " ") && no_space rest
  end.

(** An answer that reports the failure of the whole request: a body of
    [success = false] and an [error], with no statistics in it. *)
Definition is_failure (resp : HttpResponse) : Prop :=
  ∃ err, body resp = Failure false err.

(** *** Reading a number in fixed notation: [-]digits[.digits] *)





End Spec.

(** ** A worked account: L1 has 10 reviews rated 4.5, L2 cannot be read *)

Module Example.

Definition numberToString (q : Q) : string := "".

Definition L1 : Gmb.Location :=
  {| Gmb.name := "accounts/1/locations/L1";
     Gmb.locationName := Some "Boutique";
     Gmb.address :=
       Some {| Gmb.addressLines := Some [ "1 rue du Port"; "Brest" ] |} |}.

Definition L2 : Gmb.Location :=
  {| Gmb.name := "accounts/1/locations/L2";
     Gmb.locationName := None;
     Gmb.address := None |}.

Definition no_data : Gmb.Data :=
  {| Gmb.accounts := None; Gmb.locations := None;
     Gmb.totalReviewCount := None; Gmb.averageRating := None |}.

Definition not_found : JsError :=
  {| message := "Request failed with status code 404";
     response :=
       Some {| status := 404;
               data := JObj [ ("error",
                               JObj [ ("code", JNum 404);
                                      ("message", JStr "Not found") ]) ] |} |}.

Definition network_down : JsError :=
  {| message := "connect ECONNREFUSED"; response := None |}.

(** The upstream knows account 1 with its two locations and the reviews
    of L1; account 0 exists and is empty; the network fails for account
    9; anything else is a 404. *)
Definition upstream (c : Call) (u : unit) : settled Gmb.Data * unit :=
  if String.eqb (url c) (GMB_API_BASE_URL +:+ "/accounts/1/locations") then
    (Fulfilled {| Gmb.accounts := None; Gmb.locations := Some [ L1; L2 ];
                  Gmb.totalReviewCount := None; Gmb.averageRating := None |},
     u)
  else if String.eqb (url c)
            (GMB_API_BASE_URL +:+ "/accounts/1/locations/L1/reviews") then
    (Fulfilled {| Gmb.accounts := None; Gmb.locations := None;
                  Gmb.totalReviewCount := Some 10;
                  Gmb.averageRating := Some (45 # 10) |},
     u)
  else if String.eqb (url c) (GMB_API_BASE_URL +:+ "/accounts/0/locations") then
    (Fulfilled no_data, u)
  else if String.eqb (url c) (GMB_API_BASE_URL +:+ "/accounts/9/locations") then
    (Rejected network_down, u)
  else (Rejected not_found, u).

Definition world : World unit := {| remote := tt; calls := [] |}.

Definition incoming (r : Route) (header : option string) : Request :=
  {| route := r; authorization := header; accessToken := None |}.

Definition authorized (r : Route) : Request :=
  {| route := r; authorization := Some "Bearer ya29.token";
     accessToken := Some "ya29.token" |}.

Definition stats_L1 : LocationStats :=
  {| locationId := Some "L1"; locationName := "Boutique";
     address := "1 rue du Port, Brest";
     totalReviewCount := 10; averageRating := 45 # 10; error := None |}.

Definition stats_L2 : LocationStats :=
  {| locationId := Some "L2"; locationName := "N/A"; address := "N/A";
     totalReviewCount := 0; averageRating := 0%Q;
     error := Some (JStr "Not found") |}.

Definition global_1 : GlobalStats :=
  {| totalLocations := 2; totalReviews := 10;
     averageRatingAcrossAllLocations := JStr "2.25" |}.

(** What the service answers for account 1, and the world afterwards. *)
Definition answer_1 : HttpResponse :=
  res_json (AllReviewsStats true "1" global_1 [ stats_L1; stats_L2 ]).

Definition world_1 : World unit :=
  {| remote := tt;
     calls :=
       [ first_call (ApiAllReviewsStats "1") (authorized (ApiAllReviewsStats "1"));
         request (location_stats (authorized (ApiAllReviewsStats "1")) L1);
         request (location_stats (authorized (ApiAllReviewsStats "1")) L2) ] |}.

End Example.

(** ** Further vocabulary *)

Module Props.

(** A string in which the character [sep] does not occur. *)
Fixpoint avoids (sep : ascii) (s : string) : bool :=
  match s with
  | EmptyString => true
  | String c rest => negb (Ascii.eqb c sep) && avoids sep rest
  end.

(** The [success] member of a body; the body of a 401 has none. *)
Definition success_of (b : Body) : option bool :=
  match b with
  | TokenError _ _ => None
  | Accounts s _ | Locations s _ | ReviewsStats s _ _ _
  | AllReviewsStats s _ _ _ | Failure s _ => Some s
  end.

(** An upstream that keeps no state: its answer to a call is [answer] of
    that call, whenever and in whatever order it is asked. *)
Definition stateless {U} (upstream : Call → U → settled Gmb.Data * U)
    (answer : Call → settled Gmb.Data) : Prop :=
  ∀ c u, upstream c u = (answer c, u).

(** The calls a request with a given token sends: all of them carry that
    token and announce JSON. *)
Definition carries (token : option string) (c : Call) : Prop :=
  Authorization c = "Bearer " +:+ JsString.template token
  ∧ ContentType c = "application/json".




End Props.

(** ** An account whose reviews cannot be read at all *)

Module Outage.

Definition A : Gmb.Location :=
  {| Gmb.name := "accounts/7/locations/A";
     Gmb.locationName := None; Gmb.address := None |}.

(** The upstream lists the one location of account 7 and answers 404 to
    everything else. *)
Definition upstream (c : Call) (u : unit) : settled Gmb.Data * unit :=
  if String.eqb (url c) (GMB_API_BASE_URL +:+ "/accounts/7/locations") then
    (Fulfilled {| Gmb.accounts := None; Gmb.locations := Some [ A ];
                  Gmb.totalReviewCount := None; Gmb.averageRating := None |},
     u)
  else (Rejected Example.not_found, u).

Definition stats_A : LocationStats :=
  {| locationId := Some "A"; locationName := "N/A"; address := "N/A";
     totalReviewCount := 0; averageRating := 0%Q;
     error := Some (JStr "Not found") |}.

Definition global_7 : GlobalStats :=
  {| totalLocations := 1; totalReviews := 0;
     averageRatingAcrossAllLocations := JStr "0.00" |}.

Definition answer_7 : HttpResponse :=
  res_json (AllReviewsStats true "7" global_7 [ stats_A ]).

Definition world_7 : World unit :=
  {| remote := tt;
     calls :=
       [ first_call (ApiAllReviewsStats "7")
           (Example.authorized (ApiAllReviewsStats "7"));
         request (location_stats (Example.authorized (ApiAllReviewsStats "7"))
                    A) ] |}.

End Outage.

(** * Properties *)

(** ** The embedding on concrete values *)

Example split_header :
  JsString.split " " "Bearer abc def" = [ "Bearer"; "abc"; "def" ].
Proof. reflexivity. Qed.

Example split_empty_token : JsString.split " " "Bearer " = [ "Bearer"; "" ].
Proof. reflexivity. Qed.

Example split_doubled_space :
  JsString.split " " "Bearer  abc" = [ "Bearer"; ""; "abc" ].
Proof. reflexivity. Qed.

Example pop_resource_name :
  JsString.pop (JsString.split "/" "accounts/1/locations/L1") = Some "L1".
Proof. reflexivity. Qed.

Example join_lines : JsString.join ", " [ "1 rue du Port"; "Brest" ]
                     = "1 rue du Port, Brest".
Proof. reflexivity. Qed.

Example join_nothing : JsString.join ", " [] = "".
Proof. reflexivity. Qed.

Example toFixed_quarter :
  JsNumber.toFixed Example.numberToString 2 (9 # 4) = "2.25".
Proof. vm_compute. reflexivity. Qed.

Example toFixed_pads :
  JsNumber.toFixed Example.numberToString 2 (45 # 10) = "4.50"
  ∧ JsNumber.toFixed Example.numberToString 2 0 = "0.00"
  ∧ JsNumber.toFixed Example.numberToString 2 (1 # 20) = "0.05".
Proof. vm_compute. done. Qed.

Example toFixed_rounds :
  JsNumber.toFixed Example.numberToString 2 (1 # 3) = "0.33"
  ∧ JsNumber.toFixed Example.numberToString 2 (2 # 3) = "0.67"
  ∧ JsNumber.toFixed Example.numberToString 2 (1 # 8) = "0.13"
  ∧ JsNumber.toFixed Example.numberToString 2 (- 1 # 8) = "-0.13".
Proof. vm_compute. done. Qed.

(** The answer for account 1 is the same whichever review request the
    upstream answers first. *)
Example account_1_either_order :
  app Example.upstream Example.numberToString [ 0; 1 ]%nat
    (Example.incoming (ApiAllReviewsStats "1") (Some "Bearer ya29.token"))
    Example.world
  = Some (Example.answer_1, Example.world_1)
  ∧ app Example.upstream Example.numberToString [ 1; 0 ]%nat
      (Example.incoming (ApiAllReviewsStats "1") (Some "Bearer ya29.token"))
      Example.world
    = Some (Example.answer_1, Example.world_1).
Proof. vm_compute. done. Qed.

(** A review request that is never answered leaves the route without an
    answer. *)
Example account_1_stalled :
  app Example.upstream Example.numberToString [ 0 ]%nat
    (Example.incoming (ApiAllReviewsStats "1") (Some "Bearer ya29.token"))
    Example.world
  = None.
Proof. vm_compute. reflexivity. Qed.

(** ** JavaScript strings *)

Lemma split_nonempty sep s : JsString.split sep s ≠ [].
Proof.
  destruct s as [|c rest]; simpl; [done|].
  destruct (Ascii.eqb c sep); [done|].
  by destruct (JsString.split sep rest).
Qed.

Lemma pop_split sep s : is_Some (JsString.pop (JsString.split sep s)).
Proof.
  unfold JsString.pop. pose proof (split_nonempty sep s) as Hne.
  destruct (JsString.split sep s) as [|x l] using rev_ind; [done|].
  rewrite last_snoc. eauto.
Qed.

(** ** The per-location fetcher *)

Lemma location_stats_fulfilled req location outcome :
  ∃ stats, resume (location_stats req location) outcome = Fulfilled stats.
Proof. destruct outcome; simpl; eauto. Qed.

Lemma upstream_error_message_get e :
  Json.or_else (Json.get (Json.get (data <$> response e) "error") "message")
    Spec.fallback_message
  = default Spec.fallback_message (Spec.upstream_error_message e).
Proof.
  unfold Spec.upstream_error_message.
  destruct (response e) as [[st [| | | |?|body]]|]; simpl; try done.
  destruct (Json.assoc "error" body) as [[| | | |?|err]|]; simpl; try done.
  destruct (Json.assoc "message" err) as [m|]; simpl; [|done].
  by destruct (Json.truthy m).
Qed.

(** ** [Promise.all] *)

Section Deliver.

Context {U A : Type}.
Variable upstream : Call → U → settled Gmb.Data * U.
Variable tasks : list (Task A).

Local Abbreviation filled_by := (Spec.filled_by tasks).

Lemma deliver_fulfilled order :
  ∀ values u values' u',
    deliver upstream tasks order values u = (Fulfilled values', u') →
    length values' = length values
    ∧ (filled_by values → filled_by values')
    ∧ (∀ i v, values !! i = Some (Some v) → values' !! i = Some (Some v))
    ∧ (∀ i, i ∈ order → (i < length tasks)%nat → (i < length values)%nat →
         ∃ v, values' !! i = Some (Some v)).
Proof.
  induction order as [|i order IH]; intros values u values' u' Hrun; simpl in Hrun.
  - injection Hrun as <- <-. split_and!; [done|done|done|].
    intros i Hi. by apply elem_of_nil in Hi.
  - destruct (tasks !! i) as [t|] eqn:Ht;
      [destruct (values !! i) as [[old|]|] eqn:Hv|].
    + (* already answered *)
      apply IH in Hrun as (Hlen & Hfill & Hkeep & Hall).
      split_and!; [done|done|done|].
      intros j [->|Hj]%elem_of_cons ? ?; [|by apply Hall].
      exists old. by apply Hkeep.
    + (* answered now *)
      destruct (upstream (request t) u) as [outcome u1] eqn:Hup.
      destruct (resume t outcome) as [a|e] eqn:Hres; [|done].
      apply IH in Hrun as (Hlen & Hfill & Hkeep & Hall).
      rewrite length_insert in Hlen, Hall.
      assert (i < length values)%nat as Hi by (by eapply lookup_lt_Some).
      split_and!; [done| | |].
      * intros Hold. apply Hfill. intros j v Hj.
        destruct (decide (i = j)) as [<-|Hne].
        -- rewrite list_lookup_insert_eq in Hj by done.
           injection Hj as <-. eauto.
        -- rewrite list_lookup_insert_ne in Hj by done. by apply Hold.
      * intros j v Hj. apply Hkeep.
        destruct (decide (i = j)) as [<-|Hne]; [congruence|].
        by rewrite list_lookup_insert_ne.
      * intros j [->|Hj]%elem_of_cons ? ?; [|by apply Hall].
        exists a. apply Hkeep. by rewrite list_lookup_insert_eq.
    + (* out of range of the values *)
      apply IH in Hrun as (Hlen & Hfill & Hkeep & Hall).
      split_and!; [done|done|done|].
      intros j [->|Hj]%elem_of_cons ? ?; [|by apply Hall].
      apply lookup_ge_None in Hv. lia.
    + apply IH in Hrun as (Hlen & Hfill & Hkeep & Hall).
      split_and!; [done|done|done|].
      intros j [->|Hj]%elem_of_cons ? ?; [|by apply Hall].
      apply lookup_ge_None in Ht. lia.
Qed.

(** Tasks that never reject never reject the whole. *)
Lemma deliver_never_rejects order :
  (∀ t outcome, t ∈ tasks → ∃ v, resume t outcome = Fulfilled v) →
  ∀ values u, ∃ values' u',
    deliver upstream tasks order values u = (Fulfilled values', u').
Proof.
  intros Hok. induction order as [|i order IH]; intros values u; simpl.
  - eauto.
  - destruct (tasks !! i) as [t|] eqn:Ht; [|apply IH].
    destruct (values !! i) as [[old|]|]; [apply IH| |apply IH].
    destruct (upstream (request t) u) as [outcome u1].
    destruct (Hok t outcome) as [v ->]; [|apply IH].
    by eapply list_elem_of_lookup_2.
Qed.

Lemma promise_all_fulfilled order w all w' :
  promise_all upstream order tasks w = Some (Fulfilled all, w') →
  Forall2 (λ t v, ∃ outcome, resume t outcome = Fulfilled v) tasks all.
Proof.
  unfold promise_all. intros Hrun.
  destruct (deliver _ _ _ _ _) as [[values|e] u] eqn:Hd; [|done].
  destruct (mapM id values) as [all'|] eqn:Hm; [|done].
  injection Hrun as -> _.
  apply deliver_fulfilled in Hd as (Hlen & Hfill & _ & _).
  rewrite length_replicate in Hlen.
  apply mapM_Some in Hm.
  assert (filled_by values) as Hf.
  { apply Hfill. intros i v Hi. apply lookup_replicate in Hi as [? _]. done. }
  apply Forall2_same_length_lookup. split.
  - apply Forall2_length in Hm. lia.
  - intros i t v Ht Hv.
    destruct (Forall2_lookup_r _ _ _ _ _ Hm Hv) as (o & Ho & Hid).
    simpl in Hid. subst o.
    destruct (Hf i v Ho) as (t' & outcome & Ht' & Hres).
    exists outcome. congruence.
Qed.

Lemma promise_all_settles order w :
  (∀ t outcome, t ∈ tasks → ∃ v, resume t outcome = Fulfilled v) →
  Spec.answers_all order (length tasks) →
  ∃ all w', promise_all upstream order tasks w = Some (Fulfilled all, w')
    ∧ calls w' = (calls w ++ map request tasks)%list.
Proof.
  intros Hok Hall. unfold promise_all.
  destruct (deliver_never_rejects order Hok
              (replicate (length tasks) None) (remote w)) as (values & u & Hd).
  rewrite Hd.
  apply deliver_fulfilled in Hd as (Hlen & _ & _ & Hfilled).
  rewrite length_replicate in Hlen, Hfilled.
  assert (∃ all, mapM id values = Some all) as [all ->]; [|eauto].
  apply mapM_is_Some. apply Forall_lookup. intros i o Hi.
  assert (i < length tasks)%nat as Hlt.
  { rewrite <- Hlen. by eapply lookup_lt_Some. }
  destruct (Hfilled i (Hall i Hlt) Hlt Hlt) as [v Hv].
  rewrite Hi in Hv. injection Hv as ->. by eexists.
Qed.

Lemma promise_all_not_rejected order w e w' :
  (∀ t outcome, t ∈ tasks → ∃ v, resume t outcome = Fulfilled v) →
  promise_all upstream order tasks w ≠ Some (Rejected e, w').
Proof.
  intros Hok. unfold promise_all.
  destruct (deliver_never_rejects order Hok
              (replicate (length tasks) None) (remote w)) as (values & u & ->).
  by destruct (mapM id values).
Qed.

Lemma promise_all_pending order w :
  (∀ t outcome, t ∈ tasks → ∃ v, resume t outcome = Fulfilled v) →
  promise_all upstream order tasks w = None →
  ¬ Spec.answers_all order (length tasks).
Proof.
  intros Hok Hnone Hall.
  destruct (promise_all_settles order w Hok Hall) as (all & w' & Hsome & _).
  congruence.
Qed.

End Deliver.

(** ** The aggregation route *)

Section Aggregation.

Context {U : Type}.
Variable upstream : Call → U → settled Gmb.Data * U.
Variable numberToString : Q → string.

Lemma stats_tasks_never_reject req locations :
  ∀ t outcome, t ∈ map (location_stats req) locations →
    ∃ v, resume t outcome = Fulfilled v.
Proof.
  intros t outcome (location & -> & _)%list_elem_of_fmap.
  apply location_stats_fulfilled.
Qed.

(** What the route does, by the outcome of its first call. *)
Lemma get_all_reviews_stats_cases order accountId req w :
  let c := first_call (ApiAllReviewsStats accountId) req in
  match upstream c (remote w) with
  | (Rejected e, u) =>
      get_all_reviews_stats upstream numberToString order accountId req w
      = Some (upstream_failure e,
              {| remote := u; calls := (calls w ++ [c])%list |})
  | (Fulfilled d, u) =>
      let locations := list_or (Gmb.locations d) in
      match get_all_reviews_stats upstream numberToString order accountId req w with
      | None => ¬ Spec.answers_all order (length locations)
      | Some (resp, w') =>
          ∃ allStats,
            resp = res_json (AllReviewsStats true accountId
                     (global_stats numberToString locations allStats) allStats)
            ∧ Forall2 (Spec.entry_of req) locations allStats
            ∧ calls w' = (calls w ++ c :: map (request ∘ location_stats req) locations)%list
      end
  end.
Proof.
  intros c. unfold get_all_reviews_stats, try_catch, bind, axios_get.
  unfold first_call in c. fold c.  destruct (upstream c (remote w)) as [[d|e] u]; [|done].
  set (locations := list_or (Gmb.locations d)).
  set (w1 := {| remote := u; calls := (calls w ++ [c])%list |}).
  pose proof (stats_tasks_never_reject req locations) as Hok.
  destruct (promise_all upstream order (map (location_stats req) locations) w1)
    as [[[allStats|e] w2]|] eqn:Hall.
  - exists allStats. split; [done|]. split.
    + apply promise_all_fulfilled in Hall.
      apply Forall2_fmap_l in Hall. exact Hall.
    + unfold promise_all in Hall.
      destruct (deliver _ _ _ _ _) as [[values|?] ?]; [|done].
      destruct (mapM id values); [|done].
      injection Hall as _ <-. simpl.
      by rewrite <- app_assoc, list_fmap_compose.
  - by apply promise_all_not_rejected in Hall.
  - apply promise_all_pending in Hall; [|done].
    by rewrite length_map in Hall.
Qed.

End Aggregation.

(** ** Responses of the application *)

Lemma entry_of_any_request req req' location stats :
  Spec.entry_of req location stats → Spec.entry_of req' location stats.
Proof. intros [outcome H]. by exists outcome. Qed.

Lemma startsWith_truthy p s :
  JsString.truthy p = true → JsString.startsWith p s = true →
  JsString.truthy s = true.
Proof. destruct p, s; simpl; done. Qed.

Section Responses.

Context {U : Type}.
Variable upstream : Call → U → settled Gmb.Data * U.
Variable numberToString : Q → string.

Local Abbreviation serve := (app upstream numberToString).
Local Abbreviation handle := (handler_of upstream numberToString).

(** A request with an accepted header reaches its handler, with the
    token read from the header. *)
Lemma app_accepts order req w h :
  authorization req = Some h →
  JsString.startsWith "Bearer " h = true →
  serve order req w
  = handle order (route req)
      {| route := route req; authorization := Some h;
         accessToken := JsString.split " " h !! 1%nat |} w.
Proof.
  intros Hh Hp. unfold app, validateToken. rewrite Hh, Hp.
  by rewrite (startsWith_truthy "Bearer " h).
Qed.

Lemma app_refuses order req w :
  (authorization req = None
   ∨ ∃ h, authorization req = Some h
          ∧ JsString.startsWith "Bearer " h = false) →
  serve order req w
  = Some (res_status_json 401
            (TokenError "Token d'authentification manquant ou invalide"
               "Veuillez fournir un token Bearer dans le header Authorization"),
          w).
Proof.
  intros [Hn|(h & Hh & Hp)]; unfold app, validateToken.
  - by rewrite Hn.
  - rewrite Hh, Hp. by rewrite orb_true_r.
Qed.

(** The three relay routes: one call, one answer. *)
Lemma relay_cases order r req w :
  (∀ accountId, r ≠ ApiAllReviewsStats accountId) →
  ∃ resp,
    handle order r req w
    = Some (resp,
            {| remote := (upstream (first_call r req) (remote w)).2;
               calls := (calls w ++ [first_call r req])%list |})
    ∧ match (upstream (first_call r req) (remote w)).1 with
      | Rejected e => resp = upstream_failure e
      | Fulfilled d =>
          code resp = 200
          ∧ match r with
            | ApiAccounts => body resp = Accounts true (list_or (Gmb.accounts d))
            | ApiLocations _ =>
                body resp = Locations true (list_or (Gmb.locations d))
            | ApiReviewsStats _ locationId =>
                body resp = ReviewsStats true locationId
                              (Z_or (Gmb.totalReviewCount d) 0)
                              (Q_or (Gmb.averageRating d) 0%Q)
            | ApiAllReviewsStats _ => False
            end
      end.
Proof.
  intros Hr. destruct r as [|accountId|accountId locationId|accountId];
    [| | |by destruct (Hr accountId)];
    unfold handler_of, get_accounts, get_locations, get_reviews_stats,
      try_catch, bind, axios_get, first_call;
    match goal with
    | |- context [upstream ?c (remote w)] =>
        destruct (upstream c (remote w)) as [[d|e] u]
    end; simpl; eauto.
Qed.

(** Only the aggregation route answers with aggregated statistics, and
    then only from a listing that succeeded. *)
Lemma app_all_reviews_stats_inv order req w resp w' success account g l :
  serve order req w = Some (resp, w') →
  body resp = AllReviewsStats success account g l →
  ∃ locations,
    success = true
    ∧ code resp = 200
    ∧ g = global_stats numberToString locations l
    ∧ Forall2 (Spec.entry_of req) locations l.
Proof.
  intros Happ Hbody.
  destruct (authorization req) as [h|] eqn:Hh;
    [destruct (JsString.startsWith "Bearer " h) eqn:Hp|].
  - rewrite (app_accepts order req w h Hh Hp) in Happ.
    set (req' := {| route := route req; authorization := Some h;
                    accessToken := JsString.split " " h !! 1%nat |}) in *.
    destruct (route req) as [|accountId|accountId locationId|accountId].
    1-3: match type of Happ with
         | handler_of _ _ _ ?r _ _ = _ =>
             destruct (relay_cases order r req' w) as (resp0 & Hrun & Hcase);
               [done|]
         end;
         rewrite Hrun in Happ; injection Happ as <- _;
         destruct (upstream _ _).1; [destruct Hcase as [_ Hb]|subst resp0];
         simpl in *; congruence.
    simpl in Happ.
    pose proof (get_all_reviews_stats_cases upstream numberToString
                  order accountId req' w) as Hc.
    simpl in Hc.
    destruct (upstream _ (remote w)) as [[d|e] u].
    + rewrite Happ in Hc. destruct Hc as (allStats & -> & Hall & _).
      simpl in Hbody. simplify_eq.
      exists (list_or (Gmb.locations d)). split_and!; [done..|].
      eapply Forall2_impl; [exact Hall|].
      intros ? ?. apply entry_of_any_request.
    + rewrite Hc in Happ. injection Happ as <- _. done.
  - rewrite app_refuses in Happ by eauto.
    injection Happ as <- _. done.
  - rewrite app_refuses in Happ by eauto.
    injection Happ as <- _. done.
Qed.

End Responses.


(** ** Entries of the aggregated answer *)

Lemma entry_of_failed req location stats :
  Spec.entry_of req location stats → error stats ≠ None →
  totalReviewCount stats = 0 ∧ averageRating stats = 0%Q.
Proof.
  intros [[d|e] Hres] Herr; simpl in Hres; injection Hres as <-; simpl in *;
    done.
Qed.

Lemma entry_of_locationId req location stats :
  Spec.entry_of req location stats →
  locationId stats = JsString.pop (JsString.split "/" (Gmb.name location)).
Proof. intros [[d|e] Hres]; simpl in Hres; by injection Hres as <-. Qed.

Lemma entry_of_names req location stats :
  Spec.entry_of req location stats →
  locationName stats = JsString.or_else (Gmb.locationName location) "N/A"
  ∧ address stats = JsString.or_else (joined_address location) "N/A".
Proof. intros [[d|e] Hres]; simpl in Hres; by injection Hres as <-. Qed.

Lemma lacks_address_lines_joined location :
  Spec.lacks_address_lines location →
  JsString.or_else (joined_address location) "N/A" = "N/A".
Proof.
  unfold Spec.lacks_address_lines, joined_address.
  destruct (Gmb.address location) as [[[[|line lines]|]]|]; simpl; done.
Qed.

(** ** Sums *)

Lemma fold_left_sum_Z {A} (f : A → Z) (l : list A) (a : Z) :
  fold_left (λ sum x, sum + f x) l a = a + Spec.sum_Z (map f l).
Proof.
  revert a. induction l as [|x l IH]; intros a; simpl.
  - lia.
  - rewrite IH. unfold Spec.sum_Z. simpl. lia.
Qed.


(** * The claims *)

(** C1.  Whatever the upstream answers for a location, the per-location
    fetcher settles with a LocationStats value: it never rejects, so the
    join of the aggregator never sees a rejection, for any list of
    locations and any order of the answers.  When the review request
    failed, the value has [totalReviewCount = 0], [averageRating = 0] and
    an [error] that is the upstream's error message when it gave a usable
    one and the fallback message otherwise. *)
Theorem location_stats_never_rejects {U} (upstream : Call → U → settled Gmb.Data * U)
    (req : Request) (location : Gmb.Location) :
  (∀ outcome, ∃ stats,
      resume (location_stats req location) outcome = Fulfilled stats)
  ∧ (∀ e, ∃ stats,
        resume (location_stats req location) (Rejected e) = Fulfilled stats
        ∧ totalReviewCount stats = 0
        ∧ averageRating stats = 0%Q
        ∧ error stats
          = Some (default Spec.fallback_message (Spec.upstream_error_message e)))
  ∧ (∀ locations order values u, ∃ values' u',
        deliver upstream (map (location_stats req) locations) order values u
        = (Fulfilled values', u')).
Proof.
  split_and!.
  - apply location_stats_fulfilled.
  - intros e. eexists. split; [reflexivity|]. simpl. split_and!; [done..|].
    f_equal. apply upstream_error_message_get.
  - intros locations order values u.
    apply deliver_never_rejects, stats_tasks_never_reject.
Qed.

(** A listing that succeeds, followed by a fan-out that is answered. *)
Lemma fan_out_answered {U}
    (upstream : Call → U → settled Gmb.Data * U) (numberToString : Q → string)
    (order : list nat) (accountId : string) (req : Request) (w : World U)
    (d : Gmb.Data) (u : U) :
  upstream (first_call (ApiAllReviewsStats accountId) req) (remote w)
    = (Fulfilled d, u) →
  Spec.answers_all order (length (list_or (Gmb.locations d))) →
  ∃ g allStats w',
    get_all_reviews_stats upstream numberToString order accountId req w
      = Some (res_json (AllReviewsStats true accountId g allStats), w').
Proof.
  intros Hfirst Hall.
  pose proof (get_all_reviews_stats_cases upstream numberToString
                order accountId req w) as Hc.
  cbv zeta in Hc. rewrite Hfirst in Hc.
  destruct (get_all_reviews_stats upstream numberToString order accountId req w)
    as [[resp w']|]; [|done].
  destruct Hc as (allStats & -> & _). eauto.
Qed.

(** C2.  When the listing of the account's locations succeeds with N
    locations, every answer of the route is a 200 with exactly N entries
    in [locationStats]: the entry at each index is the one the
    per-location fetcher returned for the location at that index, and
    carries the last segment of its resource name as [locationId],
    whatever the order of the answers and whether or not the review
    request of that location failed.  The route does answer once every
    request of the fan-out is answered. *)
Theorem all_reviews_stats_one_entry_per_location {U}
    (upstream : Call → U → settled Gmb.Data * U) (numberToString : Q → string)
    (order : list nat) (accountId : string) (req : Request) (w : World U)
    (d : Gmb.Data) (u : U) :
  upstream (first_call (ApiAllReviewsStats accountId) req) (remote w)
    = (Fulfilled d, u) →
  (∀ resp w',
     get_all_reviews_stats upstream numberToString order accountId req w
       = Some (resp, w') →
     ∃ g allStats,
       resp = res_json (AllReviewsStats true accountId g allStats)
       ∧ length allStats = length (list_or (Gmb.locations d))
       ∧ Forall2
           (λ location stats,
              Spec.entry_of req location stats
              ∧ locationId stats
                = JsString.pop (JsString.split "/" (Gmb.name location))
              ∧ is_Some (locationId stats))
           (list_or (Gmb.locations d)) allStats)
  ∧ (Spec.answers_all order (length (list_or (Gmb.locations d))) →
     ∃ resp w',
       get_all_reviews_stats upstream numberToString order accountId req w
         = Some (resp, w')).
Proof.
  intros Hfirst. split.
  - intros resp w' Hrun.
    pose proof (get_all_reviews_stats_cases upstream numberToString
                  order accountId req w) as Hc.
    cbv zeta in Hc. rewrite Hfirst, Hrun in Hc.
    destruct Hc as (allStats & -> & Hentries & _).
    eexists _, allStats. split; [reflexivity|]. split.
    + symmetry. by eapply Forall2_length.
    + eapply Forall2_impl; [exact Hentries|].
      intros location stats Hentry. split; [done|].
      rewrite (entry_of_locationId _ _ _ Hentry). split; [done|].
      apply pop_split.
  - intros Hall.
    destruct (fan_out_answered upstream numberToString order accountId req w
                d u Hfirst Hall) as (g & allStats & w' & Hrun).
    eauto.
Qed.

Lemma all_reviews_stats_one_entry_per_location_witness :
  (∃ g allStats,
     Example.answer_1 = res_json (AllReviewsStats true "1" g allStats)
     ∧ length allStats = 2%nat
     ∧ Forall2
         (λ location stats,
            Spec.entry_of (Example.authorized (ApiAllReviewsStats "1"))
              location stats
            ∧ locationId stats
              = JsString.pop (JsString.split "/" (Gmb.name location))
            ∧ is_Some (locationId stats))
         [Example.L1; Example.L2] allStats)
  ∧ (∃ resp w',
       get_all_reviews_stats Example.upstream Example.numberToString
         [1; 0]%nat "1" (Example.authorized (ApiAllReviewsStats "1"))
         Example.world
       = Some (resp, w')).
Proof.
  destruct (all_reviews_stats_one_entry_per_location Example.upstream
              Example.numberToString [1; 0]%nat "1"
              (Example.authorized (ApiAllReviewsStats "1")) Example.world
              {| Gmb.accounts := None;
                 Gmb.locations := Some [Example.L1; Example.L2];
                 Gmb.totalReviewCount := None; Gmb.averageRating := None |}
              tt eq_refl) as [Hanswer Hanswered].
  split.
  - apply (Hanswer Example.answer_1 Example.world_1).
    vm_compute. reflexivity.
  - apply Hanswered. intros i Hi. simpl in Hi.
    destruct i as [|[|i]]; [right; left|left|lia].
Defined.

(** C3.  In every answer of the service that carries aggregated
    statistics, [globalStats.totalReviews] is the sum of the
    [totalReviewCount] of the entries of [locationStats] in that answer,
    and an entry that carries an [error] counts for 0. *)
Theorem total_reviews_is_sum {U}
    (upstream : Call → U → settled Gmb.Data * U) (numberToString : Q → string)
    (order : list nat) (req : Request) (w w' : World U) (resp : HttpResponse)
    (success : bool) (account : string) (g : GlobalStats)
    (l : list LocationStats) :
  app upstream numberToString order req w = Some (resp, w') →
  body resp = AllReviewsStats success account g l →
  totalReviews g = Spec.sum_Z (map totalReviewCount l)
  ∧ Forall (λ stats, error stats ≠ None → totalReviewCount stats = 0) l.
Proof.
  intros Happ Hbody.
  destruct (app_all_reviews_stats_inv _ _ _ _ _ _ _ _ _ _ _ Happ Hbody)
    as (locations & _ & _ & -> & Hentries).
  split.
  - simpl. by rewrite fold_left_sum_Z.
  - apply Forall_lookup. intros i stats Hi Herr.
    destruct (Forall2_lookup_r _ _ _ _ _ Hentries Hi) as (location & _ & He).
    by destruct (entry_of_failed _ _ _ He Herr).
Qed.

Lemma total_reviews_is_sum_witness :
  totalReviews
    Example.global_1
  = Spec.sum_Z (map totalReviewCount [Example.stats_L1; Example.stats_L2])
  ∧ Forall (λ stats, error stats ≠ None → totalReviewCount stats = 0)
      [Example.stats_L1; Example.stats_L2].
Proof.
  apply (total_reviews_is_sum Example.upstream Example.numberToString
           [1; 0]%nat
           (Example.incoming (ApiAllReviewsStats "1") (Some "Bearer ya29.token"))
           Example.world
           Example.world_1 Example.answer_1 true "1").
  - vm_compute. reflexivity.
  - reflexivity.
Defined.

(** C5.  In every answer of the service that carries aggregated
    statistics, [globalStats.totalLocations] is the length of the
    [locationStats] array of that answer. *)
Theorem total_locations_is_length {U}
    (upstream : Call → U → settled Gmb.Data * U) (numberToString : Q → string)
    (order : list nat) (req : Request) (w w' : World U) (resp : HttpResponse)
    (success : bool) (account : string) (g : GlobalStats)
    (l : list LocationStats) :
  app upstream numberToString order req w = Some (resp, w') →
  body resp = AllReviewsStats success account g l →
  totalLocations g = length l.
Proof.
  intros Happ Hbody.
  destruct (app_all_reviews_stats_inv _ _ _ _ _ _ _ _ _ _ _ Happ Hbody)
    as (locations & _ & _ & -> & Hentries).
  simpl. by eapply Forall2_length.
Qed.

Lemma total_locations_is_length_witness :
  totalLocations
    Example.global_1
  = length [Example.stats_L1; Example.stats_L2].
Proof.
  apply (total_locations_is_length Example.upstream Example.numberToString
           [0; 1]%nat
           (Example.incoming (ApiAllReviewsStats "1") (Some "Bearer ya29.token"))
           Example.world
           Example.world_1 Example.answer_1 true "1"
           Example.global_1
           [Example.stats_L1; Example.stats_L2]).
  - vm_compute. reflexivity.
  - reflexivity.
Defined.

(** What the shared [catch] clause answers. *)
Lemma upstream_failure_facts (e : JsError) :
  Spec.is_failure (upstream_failure e)
  ∧ (∀ res, response e = Some res → status res ≠ 0 →
       code (upstream_failure e) = status res)
  ∧ (response e = None → code (upstream_failure e) = 500)
  ∧ (∀ res, response e = Some res → Json.truthy (data res) = true →
       body (upstream_failure e) = Failure false (data res))
  ∧ ((response e = None
      ∨ ∃ res, response e = Some res ∧ Json.truthy (data res) = false) →
     body (upstream_failure e) = Failure false (JStr (message e))).
Proof.
  unfold upstream_failure. simpl. split_and!.
  - by eexists.
  - intros res -> Hst. simpl. by apply Z.eqb_neq in Hst as ->.
  - by intros ->.
  - intros res -> Hd. simpl. by rewrite Hd.
  - intros [->|(res & -> & Hd)]; simpl; [done|by rewrite Hd].
Qed.

(** C6.  The aggregation route fails as a whole exactly when the listing
    of the account's locations failed.  If the listing fails the route
    answers, whatever the order of the fan-out, with an error response:
    [success = false], no statistics, the status of the upstream's
    response (500 when there is none) and, as [error], the body of the
    upstream's response (the message of the error when there is none).
    An answer of the route is such an error response only if the listing
    failed; otherwise it is a 200 with [success = true] and the
    statistics, which the route gives once the fan-out is answered.  A
    listing that succeeds with no location is answered 200 with an empty
    [locationStats] and [totalLocations = 0], [totalReviews = 0],
    [averageRatingAcrossAllLocations = 0]. *)
Theorem all_reviews_stats_fails_iff_listing_fails {U}
    (upstream : Call → U → settled Gmb.Data * U) (numberToString : Q → string)
    (order : list nat) (accountId : string) (req : Request) (w : World U) :
  let listing :=
    (upstream (first_call (ApiAllReviewsStats accountId) req) (remote w)).1 in
  let answer :=
    get_all_reviews_stats upstream numberToString order accountId req w in
  (∀ e, listing = Rejected e →
     ∃ resp w',
       answer = Some (resp, w')
       ∧ resp = upstream_failure e
       ∧ Spec.is_failure resp
       ∧ (∀ res, response e = Some res → status res ≠ 0 →
            code resp = status res)
       ∧ (response e = None → code resp = 500)
       ∧ (∀ res, response e = Some res → Json.truthy (data res) = true →
            body resp = Failure false (data res))
       ∧ ((response e = None
           ∨ ∃ res, response e = Some res ∧ Json.truthy (data res) = false) →
          body resp = Failure false (JStr (message e))))
  ∧ (∀ resp w', answer = Some (resp, w') →
       (Spec.is_failure resp ↔ ∃ e, listing = Rejected e)
       ∧ ((∃ e, listing = Rejected e)
          ∨ ∃ g l, resp = {| code := 200;
                             body := AllReviewsStats true accountId g l |}))
  ∧ (∀ d, listing = Fulfilled d →
       Spec.answers_all order (length (list_or (Gmb.locations d))) →
       ∃ g l w', answer = Some ({| code := 200;
                                   body := AllReviewsStats true accountId g l |},
                                w'))
  ∧ (∀ d, listing = Fulfilled d → list_or (Gmb.locations d) = [] →
       ∃ w', answer
             = Some ({| code := 200;
                        body :=
                          AllReviewsStats true accountId
                            {| totalLocations := 0; totalReviews := 0;
                               averageRatingAcrossAllLocations := JNum 0%Q |}
                            [] |},
                     w')).
Proof.
  intros listing answer. subst listing answer.
  pose proof (get_all_reviews_stats_cases upstream numberToString
                order accountId req w) as Hc.
  cbv zeta in Hc.
  destruct (upstream (first_call (ApiAllReviewsStats accountId) req) (remote w))
    as [[d|e] u] eqn:Hfirst; simpl.
  - split_and!.
    + intros e [=].
    + intros resp w' Hrun. rewrite Hrun in Hc.
      destruct Hc as (allStats & -> & _). split.
      * split.
        -- intros (err & [=]).
        -- intros (e & [=]).
      * right. by eexists _, _.
    + intros d' [= <-] Hall.
      destruct (fan_out_answered upstream numberToString
                  order accountId req w d u Hfirst Hall)
        as (g & l & w' & Hrun).
      eauto.
    + intros d' [= <-] Hnil.
      destruct (get_all_reviews_stats upstream numberToString order accountId
                  req w) as [[resp w']|].
      * destruct Hc as (allStats & -> & Hentries & _).
        rewrite Hnil in Hentries |- *.
        apply Forall2_nil_inv_l in Hentries as ->. eauto.
      * destruct Hc. rewrite Hnil. intros i Hi. simpl in Hi. lia.
  - destruct (upstream_failure_facts e) as (Hfail & Hst & H500 & Hbody & Hmsg).
    split_and!.
    + intros e' [= <-]. eexists _, _. split; [exact Hc|].
      split_and!; done.
    + intros resp w' Hrun. rewrite Hc in Hrun. injection Hrun as <- _.
      split; [|left; eauto]. split; [eauto|]. by intros _.
    + intros d [=].
    + intros d [=].
Qed.

Lemma all_reviews_stats_fails_iff_listing_fails_witness :
  (∃ resp w',
     get_all_reviews_stats Example.upstream Example.numberToString []
       "9" (Example.authorized (ApiAllReviewsStats "9")) Example.world
     = Some (resp, w')
     ∧ Spec.is_failure resp
     ∧ code resp = 500
     ∧ body resp = Failure false (JStr "connect ECONNREFUSED"))
  ∧ (∃ resp w',
       get_all_reviews_stats Example.upstream Example.numberToString []
         "5" (Example.authorized (ApiAllReviewsStats "5")) Example.world
       = Some (resp, w')
       ∧ Spec.is_failure resp
       ∧ code resp = 404
       ∧ body resp
         = Failure false
             (JObj [ ("error",
                      JObj [ ("code", JNum 404);
                             ("message", JStr "Not found") ]) ]))
  ∧ ((Spec.is_failure Example.answer_1
      ↔ ∃ e, (Example.upstream
                (first_call (ApiAllReviewsStats "1")
                   (Example.authorized (ApiAllReviewsStats "1")))
                (remote Example.world)).1 = Rejected e)
     ∧ ((∃ e, (Example.upstream
                 (first_call (ApiAllReviewsStats "1")
                    (Example.authorized (ApiAllReviewsStats "1")))
                 (remote Example.world)).1 = Rejected e)
        ∨ ∃ g l, Example.answer_1
                 = {| code := 200; body := AllReviewsStats true "1" g l |}))
  ∧ (∃ g l w',
       get_all_reviews_stats Example.upstream Example.numberToString
         [1; 0]%nat "1" (Example.authorized (ApiAllReviewsStats "1"))
         Example.world
       = Some ({| code := 200; body := AllReviewsStats true "1" g l |}, w'))
  ∧ (∃ w', get_all_reviews_stats Example.upstream Example.numberToString []
             "0" (Example.authorized (ApiAllReviewsStats "0")) Example.world
           = Some ({| code := 200;
                      body :=
                        AllReviewsStats true "0"
                          {| totalLocations := 0; totalReviews := 0;
                             averageRatingAcrossAllLocations := JNum 0%Q |}
                          [] |},
                   w')).
Proof.
  split; [|split; [|split; [|split]]].
  - destruct (all_reviews_stats_fails_iff_listing_fails Example.upstream
                Example.numberToString [] "9"
                (Example.authorized (ApiAllReviewsStats "9")) Example.world)
      as (Hfails & _).
    destruct (Hfails Example.network_down eq_refl)
      as (resp & w' & Hrun & _ & Hfail & _ & H500 & _ & Hmsg).
    exists resp, w'. split; [exact Hrun|]. split; [exact Hfail|]. split.
    + apply H500. reflexivity.
    + apply Hmsg. left. reflexivity.
  - destruct (all_reviews_stats_fails_iff_listing_fails Example.upstream
                Example.numberToString [] "5"
                (Example.authorized (ApiAllReviewsStats "5")) Example.world)
      as (Hfails & _).
    destruct (Hfails Example.not_found eq_refl)
      as (resp & w' & Hrun & _ & Hfail & Hst & _ & Hbody & _).
    exists resp, w'. split; [exact Hrun|]. split; [exact Hfail|]. split.
    + apply (Hst {| status := 404;
                    data := JObj [ ("error",
                                    JObj [ ("code", JNum 404);
                                           ("message", JStr "Not found") ]) ] |}).
      * reflexivity.
      * discriminate.
    + apply (Hbody {| status := 404;
                      data := JObj [ ("error",
                                      JObj [ ("code", JNum 404);
                                             ("message", JStr "Not found") ]) ] |});
        reflexivity.
  - destruct (all_reviews_stats_fails_iff_listing_fails Example.upstream
                Example.numberToString [1; 0]%nat "1"
                (Example.authorized (ApiAllReviewsStats "1")) Example.world)
      as (_ & Hanswer & _).
    apply (Hanswer Example.answer_1 Example.world_1).
    vm_compute. reflexivity.
  - destruct (all_reviews_stats_fails_iff_listing_fails Example.upstream
                Example.numberToString [1; 0]%nat "1"
                (Example.authorized (ApiAllReviewsStats "1")) Example.world)
      as (_ & _ & Hanswered & _).
    apply (Hanswered {| Gmb.accounts := None;
                        Gmb.locations := Some [Example.L1; Example.L2];
                        Gmb.totalReviewCount := None;
                        Gmb.averageRating := None |}).
    + reflexivity.
    + intros i Hi. simpl in Hi.
      destruct i as [|[|i]]; [right; left|left|lia].
  - destruct (all_reviews_stats_fails_iff_listing_fails Example.upstream
                Example.numberToString [] "0"
                (Example.authorized (ApiAllReviewsStats "0")) Example.world)
      as (_ & _ & _ & Hempty).
    apply (Hempty Example.no_data); reflexivity.
Defined.

(** ** Reading the token *)

Lemma split_no_space t :
  Spec.no_space t = true → JsString.split " " t = [t].
Proof.
  induction t as [|c t IH]; simpl; [done|].
  intros [Hc Ht]%andb_true_iff. apply negb_true_iff in Hc. rewrite Hc.
  by rewrite IH.
Qed.

Lemma split_at_space t r :
  Spec.no_space t = true →
  JsString.split " " (t +:+ String " " r) = t :: JsString.split " " r.
Proof.
  induction t as [|c t IH]; simpl; [done|].
  intros [Hc Ht]%andb_true_iff. apply negb_true_iff in Hc. rewrite Hc.
  by rewrite IH.
Qed.

Lemma append_empty_r (t : string) : t +:+ "" = t.
Proof.
  induction t as [|c t IH]; [done|].
  change (String c (t +:+ "") = String c t). by rewrite IH.
Qed.

Lemma token_of_header t rest :
  Spec.no_space t = true →
  rest = "" ∨ (∃ r, rest = " " +:+ r) →
  JsString.split " " ("Bearer " +:+ t +:+ rest) !! 1%nat = Some t.
Proof.
  intros Ht Hrest.
  change ("Bearer " +:+ t +:+ rest) with ("Bearer" +:+ String " " (t +:+ rest)).
  rewrite split_at_space by done.
  destruct Hrest as [->|[r ->]].
  - rewrite append_empty_r. by rewrite split_no_space.
  - change (t +:+ " " +:+ r) with (t +:+ String " " r).
    by rewrite split_at_space.
Qed.

Lemma startsWith_app p s : JsString.startsWith p (p +:+ s) = true.
Proof.
  induction p as [|c p IH]; simpl; [done|].
  by rewrite Ascii.eqb_refl, IH.
Qed.

(** Every answer of a handler comes after its first call. *)
Lemma handler_first_call {U} (upstream : Call → U → settled Gmb.Data * U)
    (numberToString : Q → string) order r req w resp w' :
  handler_of upstream numberToString order r req w = Some (resp, w') →
  ∃ more, calls w' = (calls w ++ first_call r req :: more)%list.
Proof.
  intros Hrun.
  assert ((∃ accountId, r = ApiAllReviewsStats accountId)
          ∨ ∀ accountId, r ≠ ApiAllReviewsStats accountId)
    as [[accountId ->]|Hr] by (destruct r; eauto).
  - pose proof (get_all_reviews_stats_cases upstream numberToString
                  order accountId req w) as Hc.
    cbv zeta in Hc. simpl in Hrun.
    destruct (upstream _ (remote w)) as [[d|e] u].
    + rewrite Hrun in Hc. destruct Hc as (allStats & _ & _ & ->). eauto.
    + rewrite Hc in Hrun. injection Hrun as _ <-. simpl. eauto.
  - destruct (relay_cases upstream numberToString order r req w)
      as (resp0 & Hrun0 & _); [done|].
    rewrite Hrun0 in Hrun. injection Hrun as _ <-. simpl. eauto.
Qed.

(** C7.  On each of the four routes, a request whose Authorization header
    is absent or does not start with ["Bearer "] is answered 401 with a
    body of an [error] and a [message], and the world is left as it was:
    no call is logged and the upstream is not touched.  Any other request
    reaches the handler of its route. *)
Theorem validateToken_guards_every_route {U}
    (upstream : Call → U → settled Gmb.Data * U) (numberToString : Q → string)
    (order : list nat) (req : Request) (w : World U) :
  ((authorization req = None
    ∨ ∃ h, authorization req = Some h
           ∧ JsString.startsWith "Bearer " h = false) →
   app upstream numberToString order req w
   = Some ({| code := 401;
              body := TokenError
                        "Token d'authentification manquant ou invalide"
                        "Veuillez fournir un token Bearer dans le header Authorization" |},
           w))
  ∧ (∀ h, authorization req = Some h →
       JsString.startsWith "Bearer " h = true →
       app upstream numberToString order req w
       = handler_of upstream numberToString order (route req)
           {| route := route req; authorization := Some h;
              accessToken := JsString.split " " h !! 1%nat |} w).
Proof.
  split.
  - apply app_refuses.
  - intros h. apply app_accepts.
Qed.

Lemma validateToken_guards_every_route_witness :
  app Example.upstream Example.numberToString []
    (Example.incoming (ApiAllReviewsStats "1") (Some "Basic dXNlcjpwYXNz"))
    Example.world
  = Some ({| code := 401;
             body := TokenError
                       "Token d'authentification manquant ou invalide"
                       "Veuillez fournir un token Bearer dans le header Authorization" |},
          Example.world)
  ∧ app Example.upstream Example.numberToString []
      (Example.incoming ApiAccounts (Some "Bearer ya29.token")) Example.world
    = handler_of Example.upstream Example.numberToString [] ApiAccounts
        {| route := ApiAccounts; authorization := Some "Bearer ya29.token";
           accessToken := JsString.split " " "Bearer ya29.token" !! 1%nat |}
        Example.world.
Proof.
  split.
  - apply (validateToken_guards_every_route Example.upstream
             Example.numberToString []
             (Example.incoming (ApiAllReviewsStats "1")
                (Some "Basic dXNlcjpwYXNz"))
             Example.world).
    right. exists "Basic dXNlcjpwYXNz". split; reflexivity.
  - apply (validateToken_guards_every_route Example.upstream
             Example.numberToString []
             (Example.incoming ApiAccounts (Some "Bearer ya29.token"))
             Example.world); reflexivity.
Defined.

(** C8.  On each of the four routes, when the first call to the upstream
    fails the route answers with the status of the upstream's response
    when there is one (a status is a non-zero number) and 500 when there
    is none, and with [success = false] and, as [error], the body of the
    upstream's response when it has one (a body that is not empty, that
    is, truthy) and the message of the error otherwise. *)
Theorem upstream_failure_is_relayed {U}
    (upstream : Call → U → settled Gmb.Data * U) (numberToString : Q → string)
    (order : list nat) (r : Route) (req : Request) (w : World U)
    (e : JsError) (u : U) :
  upstream (first_call r req) (remote w) = (Rejected e, u) →
  ∃ resp w',
    handler_of upstream numberToString order r req w = Some (resp, w')
    ∧ (∀ res, response e = Some res → status res ≠ 0 → code resp = status res)
    ∧ (response e = None → code resp = 500)
    ∧ (∀ res, response e = Some res → Json.truthy (data res) = true →
         body resp = Failure false (data res))
    ∧ ((response e = None
        ∨ ∃ res, response e = Some res ∧ Json.truthy (data res) = false) →
       body resp = Failure false (JStr (message e))).
Proof.
  intros Hfirst.
  assert (∃ w', handler_of upstream numberToString order r req w
                = Some (upstream_failure e, w')) as [w' Hrun].
  { assert ((∃ accountId, r = ApiAllReviewsStats accountId)
            ∨ ∀ accountId, r ≠ ApiAllReviewsStats accountId)
      as [[accountId ->]|Hr] by (destruct r; eauto).
    - pose proof (get_all_reviews_stats_cases upstream numberToString
                    order accountId req w) as Hc.
      cbv zeta in Hc. rewrite Hfirst in Hc. eauto.
    - destruct (relay_cases upstream numberToString order r req w Hr)
        as (resp & Hrun & Hcase).
      rewrite Hfirst in Hcase. simpl in Hcase. subst resp. eauto. }
  exists (upstream_failure e), w'. split; [done|].
  unfold upstream_failure. simpl. split_and!.
  - intros res -> Hst. simpl. by apply Z.eqb_neq in Hst as ->.
  - by intros ->.
  - intros res -> Hd. simpl. by rewrite Hd.
  - intros [->|(res & -> & Hd)]; simpl; [done|by rewrite Hd].
Qed.

Lemma upstream_failure_is_relayed_witness :
  (∃ resp w',
     handler_of Example.upstream Example.numberToString []
       (ApiReviewsStats "1" "L2")
       (Example.authorized (ApiReviewsStats "1" "L2")) Example.world
     = Some (resp, w')
     ∧ code resp = 404
     ∧ body resp
       = Failure false
           (JObj [ ("error",
                    JObj [ ("code", JNum 404);
                           ("message", JStr "Not found") ]) ]))
  ∧ (∃ resp w',
       handler_of Example.upstream Example.numberToString []
         (ApiLocations "9") (Example.authorized (ApiLocations "9"))
         Example.world
       = Some (resp, w')
       ∧ code resp = 500
       ∧ body resp = Failure false (JStr "connect ECONNREFUSED")).
Proof.
  split.
  - destruct (upstream_failure_is_relayed Example.upstream
                Example.numberToString [] (ApiReviewsStats "1" "L2")
                (Example.authorized (ApiReviewsStats "1" "L2")) Example.world
                Example.not_found tt eq_refl)
      as (resp & w' & Hrun & Hstatus & _ & Hbody & _).
    exists resp, w'. split; [exact Hrun|]. split.
    + apply (Hstatus {| status := 404;
                        data := JObj [ ("error",
                                        JObj [ ("code", JNum 404);
                                               ("message", JStr "Not found") ]) ] |}).
      * reflexivity.
      * discriminate.
    + apply (Hbody {| status := 404;
                      data := JObj [ ("error",
                                      JObj [ ("code", JNum 404);
                                             ("message", JStr "Not found") ]) ] |});
        reflexivity.
  - destruct (upstream_failure_is_relayed Example.upstream
                Example.numberToString [] (ApiLocations "9")
                (Example.authorized (ApiLocations "9")) Example.world
                Example.network_down tt eq_refl)
      as (resp & w' & Hrun & _ & Hstatus & _ & Hbody).
    exists resp, w'. split; [exact Hrun|]. split.
    + apply Hstatus. reflexivity.
    + apply Hbody. left. reflexivity.
Defined.

(** An entry shows the display name and the joined address lines of its
    location when they are not empty. *)
Lemma entry_of_present req location stats :
  Spec.entry_of req location stats →
  (∀ n, Gmb.locationName location = Some n → n ≠ "" → locationName stats = n)
  ∧ (∀ a lines, Gmb.address location = Some a →
       Gmb.addressLines a = Some lines →
       JsString.join ", " lines ≠ "" →
       address stats = JsString.join ", " lines).
Proof.
  intros Hentry. destruct (entry_of_names _ _ _ Hentry) as [-> ->]. split.
  - intros n -> Hn. simpl. by destruct n.
  - intros a lines Ha Hlines Hjoin. unfold joined_address.
    rewrite Ha. simpl. rewrite Hlines. simpl.
    by destruct (JsString.join ", " lines).
Qed.

(** C9.  After a listing that succeeded, every answer of the aggregation
    route has one entry per location of that listing, in its order, and
    for each location and its entry, whether the review request of the
    location succeeded or failed: when the location has no display name
    the entry's [locationName] is the string ["N/A"], and when it lacks
    address lines the entry's [address] is the string ["N/A"]; a display
    name and address lines that are there are shown as they are.  The
    two members are strings in every entry.  The route does answer once
    every request of the fan-out is answered. *)
Theorem missing_names_become_NA {U}
    (upstream : Call → U → settled Gmb.Data * U) (numberToString : Q → string)
    (order : list nat) (accountId : string) (req : Request) (w : World U)
    (d : Gmb.Data) (u : U) :
  upstream (first_call (ApiAllReviewsStats accountId) req) (remote w)
    = (Fulfilled d, u) →
  (∀ resp w',
     get_all_reviews_stats upstream numberToString order accountId req w
       = Some (resp, w') →
     ∃ g allStats,
       resp = res_json (AllReviewsStats true accountId g allStats)
       ∧ Forall2
           (λ location stats,
              Spec.entry_of req location stats
              ∧ (Gmb.locationName location = None →
                 locationName stats = "N/A")
              ∧ (Spec.lacks_address_lines location → address stats = "N/A")
              ∧ (∀ n, Gmb.locationName location = Some n → n ≠ "" →
                      locationName stats = n)
              ∧ (∀ a lines, Gmb.address location = Some a →
                   Gmb.addressLines a = Some lines →
                   JsString.join ", " lines ≠ "" →
                   address stats = JsString.join ", " lines))
           (list_or (Gmb.locations d)) allStats)
  ∧ (Spec.answers_all order (length (list_or (Gmb.locations d))) →
     ∃ resp w',
       get_all_reviews_stats upstream numberToString order accountId req w
         = Some (resp, w')).
Proof.
  intros Hfirst. split.
  - intros resp w' Hrun.
    pose proof (get_all_reviews_stats_cases upstream numberToString
                  order accountId req w) as Hc.
    cbv zeta in Hc. rewrite Hfirst, Hrun in Hc.
    destruct Hc as (allStats & -> & Hentries & _).
    eexists _, allStats. split; [reflexivity|].
    eapply Forall2_impl; [exact Hentries|].
    intros location stats Hentry. split; [done|].
    destruct (entry_of_present _ _ _ Hentry) as [Hname Haddress].
    destruct (entry_of_names _ _ _ Hentry) as [Hn Ha].
    split_and!; [| |done|done].
    + intros Hnone. by rewrite Hn, Hnone.
    + intros Hlacks. rewrite Ha. by apply lacks_address_lines_joined.
  - intros Hall.
    destruct (fan_out_answered upstream numberToString order accountId req w
                d u Hfirst Hall) as (g & allStats & w' & Hrun).
    eauto.
Qed.

Lemma missing_names_become_NA_witness :
  (∃ g allStats,
     Example.answer_1 = res_json (AllReviewsStats true "1" g allStats)
     ∧ Forall2
         (λ location stats,
            Spec.entry_of (Example.authorized (ApiAllReviewsStats "1"))
              location stats
            ∧ (Gmb.locationName location = None → locationName stats = "N/A")
            ∧ (Spec.lacks_address_lines location → address stats = "N/A")
            ∧ (∀ n, Gmb.locationName location = Some n → n ≠ "" →
                    locationName stats = n)
            ∧ (∀ a lines, Gmb.address location = Some a →
                 Gmb.addressLines a = Some lines →
                 JsString.join ", " lines ≠ "" →
                 address stats = JsString.join ", " lines))
         [Example.L1; Example.L2] allStats)
  ∧ (∃ resp w',
       get_all_reviews_stats Example.upstream Example.numberToString
         [1; 0]%nat "1" (Example.authorized (ApiAllReviewsStats "1"))
         Example.world
       = Some (resp, w')).
Proof.
  destruct (missing_names_become_NA Example.upstream Example.numberToString
              [1; 0]%nat "1" (Example.authorized (ApiAllReviewsStats "1"))
              Example.world
              {| Gmb.accounts := None;
                 Gmb.locations := Some [Example.L1; Example.L2];
                 Gmb.totalReviewCount := None; Gmb.averageRating := None |}
              tt eq_refl) as [Hanswer Hanswered].
  split.
  - apply (Hanswer Example.answer_1 Example.world_1).
    vm_compute. reflexivity.
  - apply Hanswered. intros i Hi. simpl in Hi.
    destruct i as [|[|i]]; [right; left|left|lia].
Defined.

(** C10.  The middleware only checks the prefix.  A request whose header is
    exactly ["Bearer "] passes: it reaches the handler of its route with
    the empty string as token, the first call of the route carries the
    Authorization ["Bearer "], and every answer comes after that call was
    sent.  In general the token is what stands between the first space of
    the header and the next one, or the end of the header when there is
    no other space. *)
Theorem bearer_prefix_is_enough {U}
    (upstream : Call → U → settled Gmb.Data * U) (numberToString : Q → string)
    (order : list nat) (req : Request) (w : World U) :
  (authorization req = Some "Bearer " →
   let req' := {| route := route req; authorization := Some "Bearer ";
                  accessToken := Some "" |} in
   app upstream numberToString order req w
   = handler_of upstream numberToString order (route req) req' w
   ∧ Authorization (first_call (route req) req') = "Bearer "
   ∧ ∀ resp w',
       app upstream numberToString order req w = Some (resp, w') →
       ∃ more, calls w' = (calls w ++ first_call (route req) req' :: more)%list)
  ∧ (∀ t rest,
       authorization req = Some ("Bearer " +:+ t +:+ rest) →
       Spec.no_space t = true →
       rest = "" ∨ (∃ r, rest = " " +:+ r) →
       app upstream numberToString order req w
       = handler_of upstream numberToString order (route req)
           {| route := route req;
              authorization := Some ("Bearer " +:+ t +:+ rest);
              accessToken := Some t |} w).
Proof.
  split.
  - intros Hh req'.
    assert (app upstream numberToString order req w
            = handler_of upstream numberToString order (route req) req' w)
      as Hrun by (by rewrite (app_accepts _ _ order req w "Bearer ")).
    split; [done|]. split; [by destruct (route req)|].
    intros resp w'. rewrite Hrun. apply handler_first_call.
  - intros t rest Hh Ht Hrest.
    rewrite (app_accepts _ _ order req w _ Hh).
    + by rewrite token_of_header.
    + apply (startsWith_app "Bearer ").
Qed.

Lemma bearer_prefix_is_enough_witness :
  (app Example.upstream Example.numberToString []
     (Example.incoming ApiAccounts (Some "Bearer ")) Example.world
   = Some (upstream_failure Example.not_found,
           {| remote := tt;
              calls := [ {| url := GMB_API_BASE_URL +:+ "/accounts";
                            Authorization := "Bearer ";
                            ContentType := "application/json";
                            pageSize := None |} ] |}))
  ∧ app Example.upstream Example.numberToString []
      (Example.incoming ApiAccounts (Some "Bearer abc def")) Example.world
    = handler_of Example.upstream Example.numberToString [] ApiAccounts
        {| route := ApiAccounts; authorization := Some "Bearer abc def";
           accessToken := Some "abc" |} Example.world.
Proof.
  split.
  - destruct (bearer_prefix_is_enough Example.upstream Example.numberToString
                [] (Example.incoming ApiAccounts (Some "Bearer ")) Example.world)
      as [Hempty _].
    destruct (Hempty eq_refl) as (Hrun & _ & _).
    rewrite Hrun. reflexivity.
  - destruct (bearer_prefix_is_enough Example.upstream Example.numberToString
                [] (Example.incoming ApiAccounts (Some "Bearer abc def"))
                Example.world) as [_ Htoken].
    apply (Htoken "abc" " def").
    + reflexivity.
    + reflexivity.
    + right. exists "def". reflexivity.
Defined.

(** ** Digits *)

Lemma append_cons c (a b : string) : String c a +:+ b = String c (a +:+ b).
Proof. reflexivity. Qed.

Lemma append_assoc (a b c : string) : (a +:+ b) +:+ c = a +:+ (b +:+ c).
Proof.
  induction a as [|x a IH]; [done|].
  rewrite !append_cons. by rewrite IH.
Qed.













(** ** Substrings *)




(** ** Fixed notation *)






(** ** Rounding to two places *)


Lemma toFixed_2 numberToString x :
  JsNumber.toFixed numberToString 2 x
  = let s := if Qle_bool 0 x then "" else "-" in
    let x' := if Qle_bool 0 x then x else Qopp x in
    s +:+ (if Qle_bool (inject_Z (10 ^ 21)) x' then numberToString x'
           else
             let m0 := JsNumber.decimal (JsNumber.nearest 2 x') in
             let m := if (String.length m0 <=? 2)%nat
                      then JsNumber.zeros (2 + 1 - String.length m0) +:+ m0
                      else m0 in
             let k := String.length m in
             substring 0 (k - 2) m +:+ "." +:+ substring (k - 2) 2 m).
Proof. reflexivity. Qed.


(** [toFixed] does not depend on how the fraction is written. *)
Lemma toFixed_2_comp numberToString x y :
  (x == y)%Q → (Qabs x < inject_Z (10 ^ 21))%Q →
  JsNumber.toFixed numberToString 2 x = JsNumber.toFixed numberToString 2 y.
Proof.
  intros Hxy Hbig. rewrite !toFixed_2. cbv zeta.
  assert (Qle_bool 0 x = Qle_bool 0 y) as Hs by (by rewrite Hxy).
  rewrite <- Hs.
  set (x' := if Qle_bool 0 x then x else (- x)%Q).
  set (y' := if Qle_bool 0 x then y else (- y)%Q).
  assert (x' == y')%Q as Hxy'.
  { subst x' y'. destruct (Qle_bool 0 x); by rewrite Hxy. }
  assert (x' < inject_Z (10 ^ 21))%Q as Hx'.
  { subst x'. destruct (Qle_bool 0 x) eqn:Hsign.
    - apply Qle_bool_iff in Hsign. by rewrite Qabs_pos in Hbig.
    - assert (x < 0)%Q as Hneg.
      { apply Qnot_le_lt. intros H%Qle_bool_iff. congruence. }
      rewrite Qabs_neg in Hbig by lra. done. }
  assert (Qle_bool (inject_Z (10 ^ 21)) x' = false) as Hle.
  { destruct (Qle_bool (inject_Z (10 ^ 21)) x') eqn:Hle; [|done].
    apply Qle_bool_iff in Hle. lra. }
  assert (Qle_bool (inject_Z (10 ^ 21)) y' = false) as Hle'.
  { by rewrite <- Hxy'. }
  assert (JsNumber.nearest 2 x' = JsNumber.nearest 2 y') as Hn.
  { unfold JsNumber.nearest. by rewrite Hxy'. }
  by rewrite Hle, Hle', Hn.
Qed.

(** ** The average of the ratings *)


(** C4.  The code does not keep this claim.  In every answer of the
    service that carries aggregated statistics,
    [averageRatingAcrossAllLocations] is the number 0 when [locationStats]
    is empty, as the claim has it, but a string, and so no number at
    all, as soon as there is an entry: the first branch of the
    conditional ends in [toFixed(2)], whose result is a string, while its
    other branch gives a number.  On the worked account (L1 with 10
    reviews rated 4.5, L2 failing), where the sum [0 + 4.5 + 0] and the
    quotient [4.5 / 2] are exact in double precision too, the route
    answers the string ["2.25"] where the claim has the number 2.25. *)
Theorem average_rating_is_a_string {U}
    (upstream : Call → U → settled Gmb.Data * U) (numberToString : Q → string)
    (order : list nat) (req : Request) (w w' : World U) (resp : HttpResponse)
    (success : bool) (account : string) (g : GlobalStats)
    (l : list LocationStats) :
  app upstream numberToString order req w = Some (resp, w') →
  body resp = AllReviewsStats success account g l →
  (l = [] → averageRatingAcrossAllLocations g = JNum 0%Q)
  ∧ (l ≠ [] →
     ∃ text,
       averageRatingAcrossAllLocations g = JStr text
       ∧ ∀ q, averageRatingAcrossAllLocations g ≠ JNum q).
Proof.
  intros Happ Hbody.
  destruct (app_all_reviews_stats_inv _ _ _ _ _ _ _ _ _ _ _ Happ Hbody)
    as (locations & _ & _ & -> & _).
  split.
  - by intros ->.
  - intros Hne.
    assert ((0 <? length l)%nat = true) as Hpos by (by destruct l).
    unfold global_stats. cbn [averageRatingAcrossAllLocations]. rewrite Hpos.
    eexists. split; [reflexivity|]. by intros q.
Qed.

Lemma average_rating_is_a_string_witness :
  app Example.upstream Example.numberToString [0; 1]%nat
    (Example.incoming (ApiAllReviewsStats "1") (Some "Bearer ya29.token"))
    Example.world
  = Some (Example.answer_1, Example.world_1)
  ∧ averageRatingAcrossAllLocations Example.global_1 = JStr "2.25"
  ∧ (∃ text,
       averageRatingAcrossAllLocations Example.global_1 = JStr text
       ∧ ∀ q, averageRatingAcrossAllLocations Example.global_1 ≠ JNum q)
  ∧ averageRatingAcrossAllLocations
      {| totalLocations := 0; totalReviews := 0;
         averageRatingAcrossAllLocations := JNum 0%Q |}
    = JNum 0%Q.
Proof.
  split; [vm_compute; reflexivity|]. split; [reflexivity|]. split.
  - destruct (average_rating_is_a_string Example.upstream
                Example.numberToString [0; 1]%nat
                (Example.incoming (ApiAllReviewsStats "1")
                   (Some "Bearer ya29.token"))
                Example.world Example.world_1 Example.answer_1 true "1"
                Example.global_1 [Example.stats_L1; Example.stats_L2])
      as (_ & Hfilled).
    + vm_compute. reflexivity.
    + reflexivity.
    + apply Hfilled. discriminate.
  - destruct (average_rating_is_a_string Example.upstream
                Example.numberToString []
                (Example.incoming (ApiAllReviewsStats "0")
                   (Some "Bearer ya29.token"))
                Example.world
                {| remote := tt;
                   calls := [ first_call (ApiAllReviewsStats "0")
                                (Example.authorized (ApiAllReviewsStats "0")) ] |}
                (res_json
                   (AllReviewsStats true "0"
                      {| totalLocations := 0; totalReviews := 0;
                         averageRatingAcrossAllLocations := JNum 0%Q |}
                      []))
                true "0"
                {| totalLocations := 0; totalReviews := 0;
                   averageRatingAcrossAllLocations := JNum 0%Q |} [])
      as (Hempty & _).
    + vm_compute. reflexivity.
    + reflexivity.
    + apply Hempty. reflexivity.
Defined.

(** * Further properties of the service *)

(** ** The relay routes *)

Lemma Z_or_default v : Z_or v 0 = default 0 v.
Proof. destruct v as [n|]; simpl; [|done]. by destruct (Z.eqb_spec n 0). Qed.

Lemma Q_or_default v : (Q_or v 0 == default 0%Q v)%Q.
Proof.
  destruct v as [q|]; simpl; [|done].
  destruct (Qeq_bool q 0) eqn:Hq; [|done].
  symmetry. by apply Qeq_bool_iff.
Qed.

Lemma reviews_url accountId locationId :
  GMB_API_BASE_URL +:+ "/" +:+
    ("accounts/" +:+ accountId +:+ "/locations/" +:+ locationId) +:+ "/reviews"
  = "https://mybusiness.googleapis.com/v4/accounts/"
    +:+ accountId +:+ "/locations/" +:+ locationId +:+ "/reviews".
Proof.
  unfold GMB_API_BASE_URL.
  rewrite (append_assoc "accounts/"), (append_assoc accountId),
    (append_assoc "/locations/").
  reflexivity.
Qed.

(** X1.  Each of the three relay routes sends exactly one call to the
    upstream, whether that call succeeds or fails, and answers: the
    accounts route asks for [/accounts], the locations route for the
    locations of the account, the single-location route for the reviews
    of the location with a page size of 1; each call carries the
    request's token and announces JSON. *)
Theorem relay_routes_send_one_call {U}
    (upstream : Call → U → settled Gmb.Data * U) (req : Request) (w : World U) :
  let sent (c : Call) (answer : option (HttpResponse * World U)) :=
    ∃ resp, answer
            = Some (resp, {| remote := (upstream c (remote w)).2;
                             calls := (calls w ++ [c])%list |}) in
  let bearer := "Bearer " +:+ JsString.template (accessToken req) in
  sent {| url := "https://mybusiness.googleapis.com/v4/accounts";
          Authorization := bearer; ContentType := "application/json";
          pageSize := None |}
       (get_accounts upstream req w)
  ∧ (∀ accountId,
       sent {| url := "https://mybusiness.googleapis.com/v4/accounts/"
                      +:+ accountId +:+ "/locations";
               Authorization := bearer; ContentType := "application/json";
               pageSize := None |}
            (get_locations upstream accountId req w))
  ∧ (∀ accountId locationId,
       sent {| url := "https://mybusiness.googleapis.com/v4/accounts/"
                      +:+ accountId +:+ "/locations/" +:+ locationId
                      +:+ "/reviews";
               Authorization := bearer; ContentType := "application/json";
               pageSize := Some 1 |}
            (get_reviews_stats upstream accountId locationId req w)).
Proof.
  intros sent bearer. subst sent bearer. split_and!.
  - destruct (relay_cases upstream (λ _, "") [] ApiAccounts req w)
      as (resp & Hrun & _); [done|]. exists resp. exact Hrun.
  - intros accountId.
    destruct (relay_cases upstream (λ _, "") [] (ApiLocations accountId) req w)
      as (resp & Hrun & _); [done|]. exists resp. exact Hrun.
  - intros accountId locationId.
    destruct (relay_cases upstream (λ _, "") []
                (ApiReviewsStats accountId locationId) req w)
      as (resp & Hrun & _); [done|]. exists resp.
    unfold first_call, headers in Hrun. rewrite reviews_url in Hrun.
    exact Hrun.
Qed.

(** X2.  When its call succeeds, a relay route answers 200 with
    [success = true] and what the upstream sent: the accounts array or
    the locations array as it is, an empty array when the upstream's body
    has none; the two review counters, each 0 when the upstream's body
    has none; the single-location route also echoes the location id of
    the path.  When its call fails, it answers with the failure. *)
Theorem relay_routes_relay {U}
    (upstream : Call → U → settled Gmb.Data * U) (numberToString : Q → string)
    (order : list nat) (r : Route) (req : Request) (w : World U) :
  (∀ accountId, r ≠ ApiAllReviewsStats accountId) →
  ∃ resp w',
    handler_of upstream numberToString order r req w = Some (resp, w')
    ∧ match (upstream (first_call r req) (remote w)).1 with
      | Rejected e => resp = upstream_failure e
      | Fulfilled d =>
          code resp = 200
          ∧ match r with
            | ApiAccounts =>
                body resp = Accounts true (default [] (Gmb.accounts d))
            | ApiLocations _ =>
                body resp = Locations true (default [] (Gmb.locations d))
            | ApiReviewsStats _ locationId =>
                ∃ rating,
                  body resp
                  = ReviewsStats true locationId
                      (default 0 (Gmb.totalReviewCount d)) rating
                  ∧ (rating == default 0%Q (Gmb.averageRating d))%Q
            | ApiAllReviewsStats _ => False
            end
      end.
Proof.
  intros Hr.
  destruct (relay_cases upstream numberToString order r req w Hr)
    as (resp & Hrun & Hcase).
  eexists resp, _. split; [exact Hrun|].
  destruct (upstream (first_call r req) (remote w)).1 as [d|e]; [|done].
  destruct Hcase as [Hcode Hbody]. split; [done|].
  destruct r as [|accountId|accountId locationId|accountId]; try done.
  eexists. rewrite <- Z_or_default. split; [exact Hbody|].
  apply Q_or_default.
Qed.

Lemma relay_routes_relay_witness :
  ∃ resp w',
    handler_of Example.upstream Example.numberToString []
      (ApiReviewsStats "1" "L1") (Example.authorized (ApiReviewsStats "1" "L1"))
      Example.world
    = Some (resp, w')
    ∧ code resp = 200
    ∧ ∃ rating,
        body resp = ReviewsStats true "L1" 10 rating ∧ (rating == 45 # 10)%Q.
Proof.
  destruct (relay_routes_relay Example.upstream Example.numberToString []
              (ApiReviewsStats "1" "L1")
              (Example.authorized (ApiReviewsStats "1" "L1")) Example.world)
    as (resp & w' & Hrun & Hcase); [discriminate|].
  exists resp, w'. split; [exact Hrun|]. exact Hcase.
Defined.

(** ** The fan-out *)

Section FanOut.

Context {U A : Type}.
Variable upstream : Call → U → settled Gmb.Data * U.
Variable tasks : list (Task A).

(** A value is stored only by an answer the order lists. *)
Lemma deliver_origin order :
  ∀ values u values' u' i v,
    deliver upstream tasks order values u = (Fulfilled values', u') →
    values' !! i = Some (Some v) →
    values !! i = Some (Some v) ∨ i ∈ order.
Proof.
  induction order as [|j order IH]; intros values u values' u' i v Hrun Hv;
    simpl in Hrun.
  - injection Hrun as <- <-. by left.
  - destruct (tasks !! j) as [t|] eqn:Ht;
      [destruct (values !! j) as [[old|]|] eqn:Hj|].
    + destruct (IH _ _ _ _ _ _ Hrun Hv); [by left|right; by right].
    + destruct (upstream (request t) u) as [outcome u1].
      destruct (resume t outcome) as [a|e]; [|done].
      destruct (IH _ _ _ _ _ _ Hrun Hv) as [Hin|Hin]; [|right; by right].
      destruct (decide (j = i)) as [->|Hne]; [right; by left|].
      left. by rewrite list_lookup_insert_ne in Hin.
    + destruct (IH _ _ _ _ _ _ Hrun Hv); [by left|right; by right].
    + destruct (IH _ _ _ _ _ _ Hrun Hv); [by left|right; by right].
Qed.

(** The join settles only when every task has been answered. *)
Lemma promise_all_needs_all order w all w' :
  promise_all upstream order tasks w = Some (Fulfilled all, w') →
  Spec.answers_all order (length tasks).
Proof.
  unfold promise_all. intros Hrun i Hi.
  destruct (deliver _ _ _ _ _) as [[values|e] u] eqn:Hd; [|done].
  destruct (mapM id values) as [all'|] eqn:Hm; [|done].
  pose proof (deliver_fulfilled upstream tasks order _ _ _ _ Hd)
    as (Hlen & _ & _ & _).
  rewrite length_replicate in Hlen.
  apply mapM_Some in Hm.
  destruct (lookup_lt_is_Some_2 values i) as [o Ho]; [lia|].
  destruct (Forall2_lookup_l _ _ _ _ _ Hm Ho) as (v & _ & Hid).
  simpl in Hid. subst o.
  destruct (deliver_origin order _ _ _ _ _ _ Hd Ho) as [Hinit|Hin]; [|done].
  apply lookup_replicate in Hinit as [? _]. done.
Qed.

(** With a stateless upstream every stored value is the one its task
    settles with on the upstream's answer, and the upstream is as it was. *)
Lemma deliver_stateless answer order :
  Props.stateless upstream answer →
  ∀ values u values' u',
    deliver upstream tasks order values u = (Fulfilled values', u') →
    u' = u
    ∧ ∀ i v, values' !! i = Some (Some v) →
        values !! i = Some (Some v)
        ∨ ∃ t, tasks !! i = Some t
               ∧ resume t (answer (request t)) = Fulfilled v.
Proof.
  intros Hpure.
  induction order as [|j order IH]; intros values u values' u' Hrun;
    simpl in Hrun.
  - injection Hrun as <- <-. split; [done|]. intros i v Hv. by left.
  - destruct (tasks !! j) as [t|] eqn:Ht;
      [destruct (values !! j) as [[old|]|] eqn:Hj|]; try (by apply IH).
    rewrite Hpure in Hrun.
    destruct (resume t (answer (request t))) as [a|e] eqn:Hres; [|done].
    apply IH in Hrun as [-> Hvalues]. split; [done|].
    intros i v Hv. destruct (Hvalues i v Hv) as [Hin|Hin]; [|by right].
    destruct (decide (j = i)) as [->|Hne].
    + rewrite list_lookup_insert_eq in Hin by (by eapply lookup_lt_Some).
      injection Hin as <-. right. eauto.
    + left. by rewrite list_lookup_insert_ne in Hin.
Qed.

Lemma promise_all_stateless answer order w all w' :
  Props.stateless upstream answer →
  promise_all upstream order tasks w = Some (Fulfilled all, w') →
  w' = {| remote := remote w; calls := (calls w ++ map request tasks)%list |}
  ∧ Forall2 (λ t v, resume t (answer (request t)) = Fulfilled v) tasks all.
Proof.
  intros Hpure. unfold promise_all. intros Hrun.
  destruct (deliver _ _ _ _ _) as [[values|e] u] eqn:Hd; [|done].
  destruct (mapM id values) as [all'|] eqn:Hm; [|done].
  injection Hrun as -> <-.
  pose proof (deliver_fulfilled upstream tasks order _ _ _ _ Hd)
    as (Hlen & _ & _ & _).
  rewrite length_replicate in Hlen.
  destruct (deliver_stateless answer order Hpure _ _ _ _ Hd) as [-> Hvalues].
  split; [done|].
  apply mapM_Some in Hm.
  apply Forall2_same_length_lookup. split.
  - apply Forall2_length in Hm. lia.
  - intros i t v Ht Hv.
    destruct (Forall2_lookup_r _ _ _ _ _ Hm Hv) as (o & Ho & Hid).
    simpl in Hid. subst o.
    destruct (Hvalues i v Ho) as [Hinit|(t' & Ht' & Hres)].
    + apply lookup_replicate in Hinit as [? _]. done.
    + congruence.
Qed.

End FanOut.

(** The aggregation route, step by step. *)
Lemma get_all_reviews_stats_run {U}
    (upstream : Call → U → settled Gmb.Data * U) (numberToString : Q → string)
    (order : list nat) (accountId : string) (req : Request) (w : World U) :
  let c := first_call (ApiAllReviewsStats accountId) req in
  let w1 := {| remote := (upstream c (remote w)).2;
               calls := (calls w ++ [c])%list |} in
  get_all_reviews_stats upstream numberToString order accountId req w
  = match (upstream c (remote w)).1 with
    | Rejected e => Some (upstream_failure e, w1)
    | Fulfilled d =>
        let locations := list_or (Gmb.locations d) in
        match promise_all upstream order (map (location_stats req) locations) w1
        with
        | Some (Fulfilled allStats, w2) =>
            Some (res_json
                    (AllReviewsStats true accountId
                       (global_stats numberToString locations allStats)
                       allStats),
                  w2)
        | Some (Rejected e, w2) => Some (upstream_failure e, w2)
        | None => None
        end
    end.
Proof.
  intros c w1. subst w1.
  unfold get_all_reviews_stats, try_catch, bind, axios_get.
  unfold first_call in c. fold c.
  destruct (upstream c (remote w)) as [[d|e] u]; simpl; [|done].
  by destruct (promise_all _ _ _ _) as [[[allStats|e] w2]|].
Qed.

(** X3.  After a listing that succeeded, the aggregation route answers
    exactly when every review request of the fan-out is answered: one
    request left without an answer leaves the whole route without one. *)
Theorem all_reviews_stats_answers_iff_all_answered {U}
    (upstream : Call → U → settled Gmb.Data * U) (numberToString : Q → string)
    (order : list nat) (accountId : string) (req : Request) (w : World U)
    (d : Gmb.Data) :
  (upstream (first_call (ApiAllReviewsStats accountId) req) (remote w)).1
    = Fulfilled d →
  is_Some (get_all_reviews_stats upstream numberToString order accountId req w)
  ↔ Spec.answers_all order (length (list_or (Gmb.locations d))).
Proof.
  intros Hfirst.
  pose proof (get_all_reviews_stats_run upstream numberToString order
                accountId req w) as Hrun.
  cbv zeta in Hrun. rewrite Hfirst in Hrun. rewrite Hrun.
  set (tasks := map (location_stats req) (list_or (Gmb.locations d))).
  set (w1 := {| remote := _; calls := _ |}).
  replace (length (list_or (Gmb.locations d))) with (length tasks)
    by (subst tasks; apply length_map).
  split.
  - intros Hsome.
    destruct (promise_all upstream order tasks w1) as [[[allStats|e] w2]|]
      eqn:Hall.
    + by eapply promise_all_needs_all.
    + apply promise_all_not_rejected in Hall; [done|].
      apply stats_tasks_never_reject.
    + by destruct Hsome.
  - intros Hall.
    destruct (promise_all_settles upstream tasks order w1) as (all & w2 & -> & _);
      [apply stats_tasks_never_reject|done|eauto].
Qed.

Lemma all_reviews_stats_answers_iff_all_answered_witness :
  (is_Some (get_all_reviews_stats Example.upstream Example.numberToString
              [1; 0]%nat "1" (Example.authorized (ApiAllReviewsStats "1"))
              Example.world)
   ↔ Spec.answers_all [1; 0]%nat 2)
  ∧ (is_Some (get_all_reviews_stats Example.upstream Example.numberToString
                [0]%nat "1" (Example.authorized (ApiAllReviewsStats "1"))
                Example.world)
     ↔ Spec.answers_all [0]%nat 2).
Proof.
  split.
  - apply (all_reviews_stats_answers_iff_all_answered Example.upstream
             Example.numberToString [1; 0]%nat "1"
             (Example.authorized (ApiAllReviewsStats "1")) Example.world
             {| Gmb.accounts := None;
                Gmb.locations := Some [Example.L1; Example.L2];
                Gmb.totalReviewCount := None; Gmb.averageRating := None |}).
    reflexivity.
  - apply (all_reviews_stats_answers_iff_all_answered Example.upstream
             Example.numberToString [0]%nat "1"
             (Example.authorized (ApiAllReviewsStats "1")) Example.world
             {| Gmb.accounts := None;
                Gmb.locations := Some [Example.L1; Example.L2];
                Gmb.totalReviewCount := None; Gmb.averageRating := None |}).
    reflexivity.
Defined.

(** X4.  Whenever the aggregation route answers, it has sent the listing
    call and, if the listing succeeded, one review call per location, in
    the order of the listing, each for [<name>/reviews] with a page size
    of 1 and the request's token: 1 + N calls, whatever the order of the
    answers and however many review calls failed.  If the listing failed
    it has sent that one call only. *)
Theorem all_reviews_stats_calls {U}
    (upstream : Call → U → settled Gmb.Data * U) (numberToString : Q → string)
    (order : list nat) (accountId : string) (req : Request) (w w' : World U)
    (resp : HttpResponse) :
  get_all_reviews_stats upstream numberToString order accountId req w
    = Some (resp, w') →
  let bearer := "Bearer " +:+ JsString.template (accessToken req) in
  let listing :=
    {| url := "https://mybusiness.googleapis.com/v4/accounts/"
              +:+ accountId +:+ "/locations";
       Authorization := bearer; ContentType := "application/json";
       pageSize := None |} in
  match (upstream listing (remote w)).1 with
  | Rejected _ => calls w' = (calls w ++ [listing])%list
  | Fulfilled d =>
      calls w'
      = (calls w ++
         listing
         :: map (λ location,
                   {| url := "https://mybusiness.googleapis.com/v4/"
                             +:+ Gmb.name location +:+ "/reviews";
                      Authorization := bearer;
                      ContentType := "application/json";
                      pageSize := Some 1 |})
              (list_or (Gmb.locations d)))%list
      ∧ length (calls w')
        = (length (calls w) + 1 + length (list_or (Gmb.locations d)))%nat
  end.
Proof.
  intros Hrun bearer listing.
  pose proof (get_all_reviews_stats_cases upstream numberToString
                order accountId req w) as Hc.
  cbv zeta in Hc.
  change (first_call (ApiAllReviewsStats accountId) req) with listing in Hc.
  destruct (upstream listing (remote w)) as [[d|e] u]; simpl.
  - rewrite Hrun in Hc. destruct Hc as (allStats & _ & _ & ->).
    split; [done|].
    rewrite length_app. simpl. rewrite length_map. lia.
  - rewrite Hc in Hrun. by injection Hrun as _ <-.
Qed.

Lemma all_reviews_stats_calls_witness :
  calls Example.world_1
  = [ {| url := "https://mybusiness.googleapis.com/v4/accounts/1/locations";
         Authorization := "Bearer ya29.token";
         ContentType := "application/json"; pageSize := None |};
      {| url := "https://mybusiness.googleapis.com/v4/accounts/1/locations/L1/reviews";
         Authorization := "Bearer ya29.token";
         ContentType := "application/json"; pageSize := Some 1 |};
      {| url := "https://mybusiness.googleapis.com/v4/accounts/1/locations/L2/reviews";
         Authorization := "Bearer ya29.token";
         ContentType := "application/json"; pageSize := Some 1 |} ]
  ∧ length (calls Example.world_1) = 3%nat.
Proof.
  apply (all_reviews_stats_calls Example.upstream Example.numberToString
           [1; 0]%nat "1" (Example.authorized (ApiAllReviewsStats "1"))
           Example.world Example.world_1 Example.answer_1).
  vm_compute. reflexivity.
Defined.

(** X5.  With an upstream that keeps no state, the aggregation route gives
    the same answer and leaves the same world for every order in which
    the review calls are answered: after a listing that succeeded, each
    entry is what the per-location function makes of the upstream's
    answer for that location alone. *)
Theorem all_reviews_stats_order_independent {U}
    (upstream : Call → U → settled Gmb.Data * U) (numberToString : Q → string)
    (answer : Call → settled Gmb.Data)
    (order1 order2 : list nat) (accountId : string) (req : Request)
    (w : World U) (d : Gmb.Data) :
  Props.stateless upstream answer →
  answer (first_call (ApiAllReviewsStats accountId) req) = Fulfilled d →
  Spec.answers_all order1 (length (list_or (Gmb.locations d))) →
  Spec.answers_all order2 (length (list_or (Gmb.locations d))) →
  get_all_reviews_stats upstream numberToString order1 accountId req w
  = get_all_reviews_stats upstream numberToString order2 accountId req w
  ∧ ∃ allStats w',
      get_all_reviews_stats upstream numberToString order1 accountId req w
      = Some (res_json
                (AllReviewsStats true accountId
                   (global_stats numberToString (list_or (Gmb.locations d))
                      allStats)
                   allStats),
              w')
      ∧ remote w' = remote w
      ∧ Forall2
          (λ location stats,
             resume (location_stats req location)
               (answer (request (location_stats req location)))
             = Fulfilled stats)
          (list_or (Gmb.locations d)) allStats.
Proof.
  intros Hpure Hfirst Hall1 Hall2.
  set (locations := list_or (Gmb.locations d)) in *.
  set (tasks := map (location_stats req) locations).
  assert (∀ order, Spec.answers_all order (length locations) →
            ∃ allStats,
              get_all_reviews_stats upstream numberToString order accountId req w
              = Some (res_json
                        (AllReviewsStats true accountId
                           (global_stats numberToString locations allStats)
                           allStats),
                      {| remote := remote w;
                         calls := ((calls w
                                    ++ [first_call (ApiAllReviewsStats accountId)
                                          req])
                                   ++ map request tasks)%list |})
              ∧ Forall2
                  (λ location stats,
                     resume (location_stats req location)
                       (answer (request (location_stats req location)))
                     = Fulfilled stats)
                  locations allStats) as Hone.
  { intros order Hall.
    pose proof (get_all_reviews_stats_run upstream numberToString order
                  accountId req w) as Hrun.
    cbv zeta in Hrun.
    rewrite !(Hpure (first_call (ApiAllReviewsStats accountId) req) (remote w))
      in Hrun.
    cbn [fst snd] in Hrun.
    rewrite Hfirst in Hrun. fold locations tasks in Hrun.
    rewrite Hrun.
    set (w1 := {| remote := remote w;
                  calls := (calls w
                            ++ [first_call (ApiAllReviewsStats accountId) req])%list
               |}).
    destruct (promise_all_settles upstream tasks order w1)
      as (allStats & w2 & Hsettled & _).
    { apply stats_tasks_never_reject. }
    { subst tasks. by rewrite length_map. }
    rewrite Hsettled.
    destruct (promise_all_stateless upstream tasks answer order w1 allStats w2
                Hpure Hsettled) as [-> Hentries].
    exists allStats. split; [done|].
    subst tasks. by apply Forall2_fmap_l in Hentries. }
  destruct (Hone order1 Hall1) as (stats1 & Hrun1 & Hentries1).
  destruct (Hone order2 Hall2) as (stats2 & Hrun2 & Hentries2).
  assert (stats1 = stats2) as <-.
  { eapply Forall2_unique; [exact Hentries1|exact Hentries2|].
    intros location s1 s2 H1 H2. congruence. }
  split; [congruence|].
  eexists stats1, _. split; [exact Hrun1|]. split; [done|exact Hentries1].
Qed.

Lemma all_reviews_stats_order_independent_witness :
  get_all_reviews_stats Example.upstream Example.numberToString [0; 1]%nat "1"
    (Example.authorized (ApiAllReviewsStats "1")) Example.world
  = get_all_reviews_stats Example.upstream Example.numberToString [1; 0; 1]%nat
      "1" (Example.authorized (ApiAllReviewsStats "1")) Example.world.
Proof.
  apply (all_reviews_stats_order_independent Example.upstream
           Example.numberToString (λ c, (Example.upstream c tt).1)
           [0; 1]%nat [1; 0; 1]%nat "1"
           (Example.authorized (ApiAllReviewsStats "1")) Example.world
           {| Gmb.accounts := None;
              Gmb.locations := Some [Example.L1; Example.L2];
              Gmb.totalReviewCount := None; Gmb.averageRating := None |}).
  - intros c []. unfold Example.upstream.
    repeat match goal with |- context [if ?b then _ else _] => destruct b end;
      reflexivity.
  - reflexivity.
  - intros i Hi. simpl in Hi.
    destruct i as [|[|i]]; [left|right; left|lia].
  - intros i Hi. simpl in Hi.
    destruct i as [|[|i]]; [right; left|left|lia].
Defined.

(** ** One location, two routes *)

(** X6.  For a location named [accounts/<a>/locations/<l>], the review
    call of the aggregation route is the very call of the single-location
    route for [<a>] and [<l>].  On the same answer of the upstream the two
    routes agree when the call succeeds: the entry of the aggregation has
    the counters the single-location route shows, and no [error].  They
    part when it fails: the single-location route answers with the
    failure, the entry keeps counters of 0 and records an [error]. *)
Theorem single_route_and_entry_agree {U}
    (upstream : Call → U → settled Gmb.Data * U)
    (accountId locationId : string) (req : Request)
    (location : Gmb.Location) (w : World U) :
  Gmb.name location
    = "accounts/" +:+ accountId +:+ "/locations/" +:+ locationId →
  let c := first_call (ApiReviewsStats accountId locationId) req in
  request (location_stats req location) = c
  ∧ ∃ resp w' stats,
      get_reviews_stats upstream accountId locationId req w = Some (resp, w')
      ∧ resume (location_stats req location) (upstream c (remote w)).1
        = Fulfilled stats
      ∧ match (upstream c (remote w)).1 with
        | Fulfilled _ =>
            resp = res_json (ReviewsStats true locationId
                               (totalReviewCount stats) (averageRating stats))
            ∧ error stats = None
        | Rejected e =>
            resp = upstream_failure e
            ∧ totalReviewCount stats = 0
            ∧ averageRating stats = 0%Q
            ∧ is_Some (error stats)
        end.
Proof.
  intros Hname c. split.
  - subst c. simpl. by rewrite Hname.
  - destruct (relay_cases upstream (λ _, "") []
                (ApiReviewsStats accountId locationId) req w)
      as (resp & Hrun & Hcase); [done|].
    fold c in Hrun, Hcase.
    destruct (location_stats_fulfilled req location (upstream c (remote w)).1)
      as [stats Hstats].
    eexists resp, _, stats. split; [exact Hrun|]. split; [exact Hstats|].
    destruct (upstream c (remote w)).1 as [d|e]; simpl in Hstats;
      injection Hstats as <-; simpl.
    + destruct Hcase as [Hcode Hbody]. split; [|done].
      destruct resp as [code0 body0]. simpl in *. by subst.
    + split_and!; [done|done|done|by eexists].
Qed.

Lemma single_route_and_entry_agree_witness :
  request (location_stats (Example.authorized (ApiReviewsStats "1" "L1"))
             Example.L1)
  = first_call (ApiReviewsStats "1" "L1")
      (Example.authorized (ApiReviewsStats "1" "L1"))
  ∧ ∃ resp w' stats,
      get_reviews_stats Example.upstream "1" "L1"
        (Example.authorized (ApiReviewsStats "1" "L1")) Example.world
      = Some (resp, w')
      ∧ resume (location_stats (Example.authorized (ApiReviewsStats "1" "L1"))
                  Example.L1)
          (Fulfilled {| Gmb.accounts := None; Gmb.locations := None;
                        Gmb.totalReviewCount := Some 10;
                        Gmb.averageRating := Some (45 # 10) |})
        = Fulfilled stats
      ∧ resp = res_json (ReviewsStats true "L1" (totalReviewCount stats)
                           (averageRating stats))
      ∧ error stats = None.
Proof.
  apply (single_route_and_entry_agree Example.upstream "1" "L1"
           (Example.authorized (ApiReviewsStats "1" "L1")) Example.L1
           Example.world).
  reflexivity.
Defined.

(** ** Segments of a resource name *)

Lemma split_app sep p l :
  JsString.split sep (p +:+ String sep l)
  = (JsString.split sep p ++ JsString.split sep l)%list.
Proof.
  induction p as [|c p IH].
  - change ("" +:+ String sep l) with (String sep l). simpl.
    by rewrite Ascii.eqb_refl.
  - rewrite append_cons. simpl. rewrite IH.
    destruct (Ascii.eqb c sep); [done|].
    pose proof (split_nonempty sep p) as Hne.
    by destruct (JsString.split sep p).
Qed.

Lemma split_avoids sep l :
  Props.avoids sep l = true → JsString.split sep l = [l].
Proof.
  induction l as [|c l IH]; simpl; [done|].
  intros [Hc Hl]%andb_true_iff. apply negb_true_iff in Hc. rewrite Hc.
  by rewrite IH.
Qed.

(** X7.  The [locationId] of an entry is the last segment of the
    location's resource name: what follows its last slash, which is the
    empty string for a name that ends in a slash, and the whole name when
    there is no slash in it. *)
Theorem locationId_is_last_segment (req : Request) (location : Gmb.Location)
    (stats : LocationStats) :
  Spec.entry_of req location stats →
  (∀ p l, Gmb.name location = p +:+ "/" +:+ l →
          Props.avoids "/" l = true → locationId stats = Some l)
  ∧ (Props.avoids "/" (Gmb.name location) = true →
     locationId stats = Some (Gmb.name location)).
Proof.
  intros Hentry. rewrite (entry_of_locationId _ _ _ Hentry).
  unfold JsString.pop. split.
  - intros p l -> Hl.
    change (p +:+ "/" +:+ l) with (p +:+ String "/" l).
    rewrite split_app, (split_avoids _ _ Hl). apply last_snoc.
  - intros Hl. by rewrite (split_avoids _ _ Hl).
Qed.

Lemma locationId_is_last_segment_witness :
  locationId Example.stats_L1 = Some "L1"
  ∧ locationId
      {| locationId := Some ""; locationName := "N/A"; address := "N/A";
         totalReviewCount := 0; averageRating := 0%Q;
         error := Some Spec.fallback_message |}
    = Some "".
Proof.
  split.
  - destruct (locationId_is_last_segment
                (Example.authorized (ApiAllReviewsStats "1")) Example.L1
                Example.stats_L1) as [Hlast _].
    + exists (Fulfilled {| Gmb.accounts := None; Gmb.locations := None;
                           Gmb.totalReviewCount := Some 10;
                           Gmb.averageRating := Some (45 # 10) |}).
      reflexivity.
    + apply (Hlast "accounts/1/locations" "L1"); reflexivity.
  - destruct (locationId_is_last_segment
                (Example.authorized (ApiAllReviewsStats "1"))
                {| Gmb.name := "accounts/1/locations/";
                   Gmb.locationName := None; Gmb.address := None |}
                {| locationId := Some ""; locationName := "N/A";
                   address := "N/A"; totalReviewCount := 0;
                   averageRating := 0%Q;
                   error := Some Spec.fallback_message |}) as [Hlast _].
    + exists (Rejected Example.network_down). reflexivity.
    + apply (Hlast "accounts/1/locations" ""); reflexivity.
Defined.

(** ** The token on its way to the upstream *)

Lemma startsWith_inv p h :
  JsString.startsWith p h = true → ∃ s, h = p +:+ s.
Proof.
  revert h. induction p as [|a p IH]; intros h; simpl.
  - intros _. by exists h.
  - destruct h as [|b h]; [done|].
    intros [Hab Hp]%andb_true_iff.
    apply Ascii.eqb_eq in Hab as ->.
    destruct (IH h Hp) as [s ->]. by exists s.
Qed.

(** Every string starts with a space-free token that runs to its first
    space, or to its end. *)
Lemma first_token s :
  ∃ t rest, s = t +:+ rest ∧ Spec.no_space t = true
            ∧ (rest = "" ∨ ∃ r, rest = " " +:+ r).
Proof.
  induction s as [|c s (t & rest & -> & Ht & Hrest)].
  - exists "", "". split_and!; [done|done|by left].
  - destruct (Ascii.eqb c " ") eqn:Hc.
    + apply Ascii.eqb_eq in Hc as ->.
      exists "", (String " " (t +:+ rest)). split_and!; [done|done|].
      right. by exists (t +:+ rest).
    + exists (String c t), rest. split_and!; [done| |done].
      simpl. by rewrite Hc, Ht.
Qed.

Lemma handler_calls {U} (upstream : Call → U → settled Gmb.Data * U)
    (numberToString : Q → string) order r req w resp w' :
  handler_of upstream numberToString order r req w = Some (resp, w') →
  ∃ new, calls w' = (calls w ++ new)%list ∧ new ≠ []
         ∧ Forall (Props.carries (accessToken req)) new.
Proof.
  intros Hrun.
  assert ((∃ accountId, r = ApiAllReviewsStats accountId)
          ∨ ∀ accountId, r ≠ ApiAllReviewsStats accountId)
    as [[accountId ->]|Hr] by (destruct r; eauto).
  - pose proof (get_all_reviews_stats_cases upstream numberToString
                  order accountId req w) as Hc.
    cbv zeta in Hc. simpl in Hrun.
    destruct (upstream _ (remote w)) as [[d|e] u].
    + rewrite Hrun in Hc. destruct Hc as (allStats & _ & _ & ->).
      eexists. split; [reflexivity|]. split; [done|].
      apply Forall_cons. split; [done|].
      apply Forall_fmap, Forall_forall. by intros location _.
    + rewrite Hc in Hrun. injection Hrun as _ <-. simpl.
      eexists. split; [reflexivity|]. split; [done|].
      by apply Forall_singleton.
  - destruct (relay_cases upstream numberToString order r req w)
      as (resp0 & Hrun0 & _); [done|].
    rewrite Hrun0 in Hrun. injection Hrun as _ <-. simpl.
    eexists. split; [reflexivity|]. split; [done|].
    apply Forall_singleton. by destruct r.
Qed.

(** X8.  A request that passes the middleware is served with the first
    space-free token of its header after ["Bearer "]: the header is
    ["Bearer " + token + rest], where [rest] is empty or starts with a
    space, and every call the service sends for the request, at least
    one, carries the Authorization ["Bearer " + token] and the content
    type [application/json].  What follows a second space never reaches
    the upstream. *)
Theorem every_call_carries_the_token {U}
    (upstream : Call → U → settled Gmb.Data * U) (numberToString : Q → string)
    (order : list nat) (req : Request) (w w' : World U) (resp : HttpResponse)
    (h : string) :
  authorization req = Some h →
  JsString.startsWith "Bearer " h = true →
  app upstream numberToString order req w = Some (resp, w') →
  ∃ token rest new,
    h = "Bearer " +:+ token +:+ rest
    ∧ Spec.no_space token = true
    ∧ (rest = "" ∨ ∃ r, rest = " " +:+ r)
    ∧ calls w' = (calls w ++ new)%list
    ∧ new ≠ []
    ∧ Forall (λ c, Authorization c = "Bearer " +:+ token
                   ∧ ContentType c = "application/json") new.
Proof.
  intros Hh Hprefix Hrun.
  destruct (startsWith_inv _ _ Hprefix) as [s ->].
  destruct (first_token s) as (token & rest & -> & Htoken & Hrest).
  rewrite (app_accepts upstream numberToString order req w _ Hh Hprefix) in Hrun.
  rewrite token_of_header in Hrun by done.
  destruct (handler_calls _ _ _ _ _ _ _ _ Hrun) as (new & Hcalls & Hne & Hall).
  exists token, rest, new. split_and!; done.
Qed.

Lemma every_call_carries_the_token_witness :
  ∃ token rest new,
    "Bearer ya29.token and more" = "Bearer " +:+ token +:+ rest
    ∧ Spec.no_space token = true
    ∧ (rest = "" ∨ ∃ r, rest = " " +:+ r)
    ∧ calls Example.world_1 = (calls Example.world ++ new)%list
    ∧ new ≠ []
    ∧ Forall (λ c, Authorization c = "Bearer " +:+ token
                   ∧ ContentType c = "application/json") new.
Proof.
  apply (every_call_carries_the_token Example.upstream Example.numberToString
           [0; 1]%nat
           (Example.incoming (ApiAllReviewsStats "1")
              (Some "Bearer ya29.token and more"))
           Example.world Example.world_1 Example.answer_1).
  - reflexivity.
  - reflexivity.
  - vm_compute. reflexivity.
Defined.

(** ** The answers of the service *)

(** X9.  Every answer of the service is of one of three kinds: a 401
    without a [success] member, given before anything was sent; a 200
    with [success = true]; or the relayed failure of an upstream call,
    with [success = false] and a status that is never 0.  In particular
    [success = true] only comes with a 200. *)
Theorem answers_are_of_three_kinds {U}
    (upstream : Call → U → settled Gmb.Data * U) (numberToString : Q → string)
    (order : list nat) (req : Request) (w w' : World U) (resp : HttpResponse) :
  app upstream numberToString order req w = Some (resp, w') →
  (code resp = 401 ∧ Props.success_of (body resp) = None ∧ w' = w)
  ∨ (code resp = 200 ∧ Props.success_of (body resp) = Some true)
  ∨ (∃ e, resp = upstream_failure e
          ∧ Props.success_of (body resp) = Some false
          ∧ code resp ≠ 0).
Proof.
  intros Hrun.
  assert (∀ e, Props.success_of (body (upstream_failure e)) = Some false
               ∧ code (upstream_failure e) ≠ 0) as Hfail.
  { intros e. split; [done|]. unfold upstream_failure. simpl.
    destruct (response e) as [[st dt]|]; simpl; [|done].
    destruct (Z.eqb_spec st 0); done. }
  destruct (authorization req) as [h|] eqn:Hh;
    [destruct (JsString.startsWith "Bearer " h) eqn:Hp|].
  - rewrite (app_accepts upstream numberToString order req w h Hh Hp) in Hrun.
    set (req' := {| route := route req; authorization := Some h;
                    accessToken := JsString.split " " h !! 1%nat |}) in *.
    right.
    assert ((∃ accountId, route req = ApiAllReviewsStats accountId)
            ∨ ∀ accountId, route req ≠ ApiAllReviewsStats accountId)
      as [[accountId Hr]|Hr] by (destruct (route req); eauto).
    + rewrite Hr in Hrun. simpl in Hrun.
      pose proof (get_all_reviews_stats_cases upstream numberToString
                    order accountId req' w) as Hc.
      cbv zeta in Hc.
      destruct (upstream _ (remote w)) as [[d|e] u].
      * rewrite Hrun in Hc. destruct Hc as (allStats & -> & _). by left.
      * rewrite Hc in Hrun. injection Hrun as <- _. right.
        exists e. split; [done|]. apply Hfail.
    + destruct (relay_cases upstream numberToString order (route req) req' w Hr)
        as (resp0 & Hrun0 & Hcase).
      rewrite Hrun0 in Hrun. injection Hrun as <- _.
      destruct (upstream _ _).1 as [d|e].
      * left. destruct Hcase as [Hcode Hbody]. split; [done|].
        destruct (route req); try done; by rewrite Hbody.
      * right. exists e. split; [done|]. subst resp0. apply Hfail.
  - rewrite app_refuses in Hrun by eauto. injection Hrun as <- <-. by left.
  - rewrite app_refuses in Hrun by eauto. injection Hrun as <- <-. by left.
Qed.

Lemma answers_are_of_three_kinds_witness :
  (code Example.answer_1 = 401
   ∧ Props.success_of (body Example.answer_1) = None
   ∧ Example.world_1 = Example.world)
  ∨ (code Example.answer_1 = 200
     ∧ Props.success_of (body Example.answer_1) = Some true)
  ∨ (∃ e, Example.answer_1 = upstream_failure e
          ∧ Props.success_of (body Example.answer_1) = Some false
          ∧ code Example.answer_1 ≠ 0).
Proof.
  apply (answers_are_of_three_kinds Example.upstream Example.numberToString
           [0; 1]%nat
           (Example.incoming (ApiAllReviewsStats "1") (Some "Bearer ya29.token"))
           Example.world Example.world_1 Example.answer_1).
  vm_compute. reflexivity.
Defined.

(** ** The average as it is shown *)






Lemma average_of_answer {U}
    (upstream : Call → U → settled Gmb.Data * U) (numberToString : Q → string)
    (order : list nat) (req : Request) (w w' : World U) (resp : HttpResponse)
    (success : bool) (account : string) (g : GlobalStats)
    (l : list LocationStats) :
  app upstream numberToString order req w = Some (resp, w') →
  body resp = AllReviewsStats success account g l →
  l ≠ [] →
  averageRatingAcrossAllLocations g
  = JStr (JsNumber.toFixed numberToString 2
            (fold_left (λ sum stat, sum + averageRating stat) l 0
             / inject_Z (Z.of_nat (length l)))%Q).
Proof.
  intros Happ Hbody Hne.
  destruct (app_all_reviews_stats_inv _ _ _ _ _ _ _ _ _ _ _ Happ Hbody)
    as (locations & _ & _ & -> & _).
  unfold global_stats. cbn [averageRatingAcrossAllLocations].
  by destruct l.
Qed.





(** ** The totals *)

Lemma sum_of_failed (l : list LocationStats) :
  Forall (λ stats, totalReviewCount stats = 0 ∧ averageRating stats = 0%Q) l →
  fold_left (λ sum stat, sum + totalReviewCount stat) l 0 = 0
  ∧ fold_left (λ sum stat, sum + averageRating stat)%Q l 0%Q = 0%Q.
Proof.
  induction 1 as [|stats l [Hcount Hrating] _ [IH1 IH2]]; [done|].
  simpl. rewrite Hcount, Hrating. split; [exact IH1|exact IH2].
Qed.

(** X13.  When every review request of a non-empty listing fails, the
    route still answers 200 with [success = true]: every entry carries an
    [error], [totalReviews] is 0 and the average is the string
    ["0.00"]. *)
Theorem all_failed_is_still_a_success {U}
    (upstream : Call → U → settled Gmb.Data * U) (numberToString : Q → string)
    (order : list nat) (req : Request) (w w' : World U) (resp : HttpResponse)
    (success : bool) (account : string) (g : GlobalStats)
    (l : list LocationStats) :
  app upstream numberToString order req w = Some (resp, w') →
  body resp = AllReviewsStats success account g l →
  l ≠ [] →
  Forall (λ stats, error stats ≠ None) l →
  code resp = 200
  ∧ success = true
  ∧ totalLocations g = length l
  ∧ totalReviews g = 0
  ∧ averageRatingAcrossAllLocations g = JStr "0.00".
Proof.
  intros Happ Hbody Hne Hfailed.
  pose proof (average_of_answer _ _ _ _ _ _ _ _ _ _ _ Happ Hbody Hne) as Havg.
  destruct (app_all_reviews_stats_inv _ _ _ _ _ _ _ _ _ _ _ Happ Hbody)
    as (locations & -> & Hcode & -> & Hentries).
  assert (Forall (λ stats, totalReviewCount stats = 0
                           ∧ averageRating stats = 0%Q) l) as Hzero.
  { apply Forall_lookup. intros i stats Hi.
    destruct (Forall2_lookup_r _ _ _ _ _ Hentries Hi) as (location & _ & He).
    eapply entry_of_failed; [exact He|].
    by eapply (proj1 (Forall_lookup _ _) Hfailed). }
  destruct (sum_of_failed l Hzero) as [Hsum Hmean].
  split_and!; [done|done| |done|].
  - simpl. by eapply Forall2_length.
  - rewrite Havg, Hmean. f_equal.
    rewrite (toFixed_2_comp numberToString _ 0%Q).
    + vm_compute. reflexivity.
    + unfold Qdiv. ring.
    + unfold Qdiv. assert (0 * / inject_Z (Z.of_nat (length l)) == 0)%Q as ->
        by ring. reflexivity.
Qed.

Lemma all_failed_is_still_a_success_witness :
  code Outage.answer_7 = 200
  ∧ true = true
  ∧ totalLocations Outage.global_7 = length [Outage.stats_A]
  ∧ totalReviews Outage.global_7 = 0
  ∧ averageRatingAcrossAllLocations Outage.global_7 = JStr "0.00".
Proof.
  apply (all_failed_is_still_a_success Outage.upstream Example.numberToString
           [0]%nat
           (Example.incoming (ApiAllReviewsStats "7") (Some "Bearer ya29.token"))
           Example.world Outage.world_7 Outage.answer_7 true "7"
           Outage.global_7 [Outage.stats_A]).
  - vm_compute. reflexivity.
  - reflexivity.
  - discriminate.
  - repeat constructor; discriminate.
Defined.
